(** * Thumbnail pipeline ([lambda_function.py]): shallow embedding and properties

    The handler fetches every object named by an S3 notification batch,
    shrinks it to fit a 300x300 box, stores the JPEG under
    [resized/<basename>] and records one metadata item per record.

    Layout of the development:
    - [posixpath]  : [os.path.basename] on POSIX keys;
    - [Py]         : exceptions and results of Python statements;
    - [PIL]        : rasters, [Image.open], [Image.thumbnail], [Image.save];
    - [pydatetime] : naive datetimes, [isoformat] and an ISO 8601 reader;
    - [Pipeline]   : the world the handler talks to (object store, metadata
                     store, identifier generator, clock), the monad of
                     statements that may raise, [lambda_handler] itself and
                     its properties;
    - [Deployment] : a small deployment on which the handler is run. *)

From Stdlib Require Import ZArith QArith Qround Qabs Lia Lqa Ascii.
From stdpp Require Import gmap strings list sorting pretty.

Local Open Scope Z_scope.

(** ** Strings *)

Lemma append_nil_l (t : string) : EmptyString +:+ t = t.
Proof. reflexivity. Qed.

Lemma append_cons (a : ascii) (s t : string) :
  String a s +:+ t = String a (s +:+ t).
Proof. reflexivity. Qed.

Lemma append_empty_r (s : string) : s +:+ EmptyString = s.
Proof.
  induction s as [|a s IH]; [reflexivity|].
  rewrite append_cons, IH. reflexivity.
Qed.

Lemma append_snoc (s : string) (a : ascii) (t : string) :
  (s +:+ String a EmptyString) +:+ t = s +:+ String a t.
Proof.
  induction s as [|b s IH]; [reflexivity|].
  rewrite !append_cons, IH. reflexivity.
Qed.

(** ** os.path.basename (posixpath) *)

Module posixpath.

Definition sep : ascii := "/"%char.

(** [p.rfind(sep)] for a one-character separator: the highest index at
    which [c] occurs in [p], or [-1]. *)
Fixpoint rfind (c : ascii) (p : string) : Z :=
  match p with
  | EmptyString => -1
  | String a p' =>
      let r := rfind c p' in
      if 0 <=? r then r + 1
      else if Ascii.eqb a c then 0 else -1
  end.

(** [p[i:]] for [0 <= i]. *)
Fixpoint slice_from (i : nat) (p : string) : string :=
  match i, p with
  | O, _ => p
  | S _, EmptyString => EmptyString
  | S i', String _ p' => slice_from i' p'
  end.

(** [i = p.rfind(sep) + 1; return p[i:]] *)
Definition basename (p : string) : string :=
  let i := rfind sep p + 1 in
  slice_from (Z.to_nat i) p.

(** The spec's wording, "final path segment": cut the key at every
    separator and keep the last piece. *)
Fixpoint segments_from (cur : string) (p : string) : list string :=
  match p with
  | EmptyString => [cur]
  | String a p' =>
      if Ascii.eqb a sep then cur :: segments_from EmptyString p'
      else segments_from (cur +:+ String a EmptyString) p'
  end.

Definition segments (p : string) : list string := segments_from EmptyString p.

Definition final_segment (p : string) : string :=
  List.last (segments p) EmptyString.

(** [sep not in p] *)
Fixpoint has_sep (p : string) : bool :=
  match p with
  | EmptyString => false
  | String a p' => Ascii.eqb a sep || has_sep p'
  end.

(** ['/'.join(segs)] *)
Fixpoint join (segs : list string) : string :=
  match segs with
  | [] => EmptyString
  | [s] => s
  | s :: rest => s +:+ String sep (join rest)
  end.

(** *** Facts about [rfind], [slice_from] and the segments *)

Lemma rfind_lower (c : ascii) (p : string) : -1 <= rfind c p.
Proof.
  induction p as [|a p IH]; simpl; [lia|].
  destruct (0 <=? rfind c p) eqn:E; [lia|].
  destruct (Ascii.eqb a c); lia.
Qed.

Lemma rfind_no_sep (p : string) : has_sep p = false -> rfind sep p = -1.
Proof.
  induction p as [|a p IH]; simpl; [reflexivity|].
  intros H. apply orb_false_iff in H as [Ha Hp].
  rewrite (IH Hp), Ha. reflexivity.
Qed.

Lemma rfind_last_sep (d n : string) :
  has_sep n = false ->
  rfind sep (d +:+ String sep n) = Z.of_nat (String.length d).
Proof.
  intros Hn. induction d as [|a d IH].
  - rewrite append_nil_l. simpl. rewrite (rfind_no_sep n Hn). reflexivity.
  - rewrite append_cons. cbn [rfind String.length]. rewrite IH.
    destruct (0 <=? Z.of_nat (String.length d)) eqn:E; lia.
Qed.

Lemma slice_from_after (d : string) (c : ascii) (n : string) :
  slice_from (S (String.length d)) (d +:+ String c n) = n.
Proof.
  induction d as [|a d IH]; [reflexivity|].
  rewrite append_cons. cbn [slice_from String.length]. exact IH.
Qed.

(** A key with a separator splits at its last separator. *)
Lemma split_at_last_sep (p : string) :
  has_sep p = true ->
  exists d n, p = d +:+ String sep n /\ has_sep n = false.
Proof.
  induction p as [|a p IH]; simpl; [discriminate|].
  intros H. destruct (has_sep p) eqn:Hp.
  - destruct (IH eq_refl) as (d & n & -> & Hn).
    exists (String a d), n. split; [reflexivity | exact Hn].
  - rewrite orb_false_r in H. apply Ascii.eqb_eq in H. subst a.
    exists EmptyString, p. split; [reflexivity | exact Hp].
Qed.

Lemma basename_no_sep (p : string) : has_sep p = false -> basename p = p.
Proof. intros H. unfold basename. rewrite (rfind_no_sep p H). reflexivity. Qed.

Lemma basename_after_sep (d n : string) :
  has_sep n = false -> basename (d +:+ String sep n) = n.
Proof.
  intros H. unfold basename. rewrite (rfind_last_sep d n H).
  replace (Z.to_nat (Z.of_nat (String.length d) + 1)) with (S (String.length d)) by lia.
  apply slice_from_after.
Qed.

Lemma segments_from_no_sep (cur p : string) :
  has_sep p = false -> segments_from cur p = [cur +:+ p].
Proof.
  revert cur. induction p as [|a p IH]; simpl; intros cur H.
  - now rewrite append_empty_r.
  - apply orb_false_iff in H as [Ha Hp].
    now rewrite Ha, (IH _ Hp), append_snoc.
Qed.

Lemma segments_from_nonempty (cur p : string) : segments_from cur p <> [].
Proof.
  revert cur. induction p as [|a p IH]; simpl; intros cur; [discriminate|].
  destruct (Ascii.eqb a sep); [discriminate | apply IH].
Qed.

Lemma last_segments_from (cur d n : string) :
  has_sep n = false ->
  List.last (segments_from cur (d +:+ String sep n)) EmptyString = n.
Proof.
  intros Hn. revert cur. induction d as [|a d IH]; intros cur.
  - rewrite append_nil_l. cbn [segments_from]. rewrite Ascii.eqb_refl.
    rewrite (segments_from_no_sep _ n Hn). reflexivity.
  - rewrite append_cons. cbn [segments_from]. destruct (Ascii.eqb a sep).
    + specialize (IH EmptyString).
      destruct (segments_from EmptyString (d +:+ String sep n)) eqn:E.
      * exfalso. exact (segments_from_nonempty _ _ E).
      * exact IH.
    + apply IH.
Qed.

(** [basename] returns the final path segment, whatever the depth. *)
Lemma basename_final_segment (p : string) : basename p = final_segment p.
Proof.
  unfold final_segment, segments.
  destruct (has_sep p) eqn:H.
  - destruct (split_at_last_sep p H) as (d & n & -> & Hn).
    rewrite (basename_after_sep d n Hn), (last_segments_from _ d n Hn).
    reflexivity.
  - rewrite (basename_no_sep p H), (segments_from_no_sep _ p H). reflexivity.
Qed.

Lemma basename_has_no_sep (p : string) : has_sep (basename p) = false.
Proof.
  destruct (has_sep p) eqn:H.
  - destruct (split_at_last_sep p H) as (d & n & -> & Hn).
    rewrite (basename_after_sep d n Hn). exact Hn.
  - rewrite (basename_no_sep p H). exact H.
Qed.

Example basename_cat : basename "photos/cat.png" = "cat.png".
Proof. reflexivity. Qed.

Example basename_deep : basename "a/b/c/d.jpeg" = "d.jpeg".
Proof. reflexivity. Qed.

Example basename_trailing : basename "photos/" = "".
Proof. reflexivity. Qed.

End posixpath.

(** ** Python values shared by the models *)

Module Py.

(** The exceptions the pipeline can meet.  The client errors of the two
    AWS services carry the service's error code and the operation. *)
Inductive exn : Type :=
| KeyError (k : string)
| ZeroDivisionError
| ValueError (msg : string)
| OSError (msg : string)
| UnidentifiedImageError
| ClientError (code : string) (operation : string).

(** The outcome of evaluating an expression or running a statement. *)
Inductive Result (A : Type) : Type :=
| Ok (a : A)
| Raise (e : exn).

Arguments Ok {A} a.
Arguments Raise {A} e.

End Py.
Export Py.

(** ** The imaging library *)

Module PIL.

(** An opened image.  Pixels are left out: no statement of the pipeline
    looks at them. *)
Record Image : Type := mkImage {
  mode : string;
  width : Z;
  height : Z
}.

(** The content of a stored object, seen through the codecs: a file some
    plugin identifies, carrying a raster, or anything else. *)
Inductive Blob : Type :=
| Encoded (format : string) (raster : Image)
| Unrecognised (raw : string).

(** Modelled from the spec: [Image.open] belongs to the imaging library
    and is not under src/; the spec (component design, step 2) has it fail
    with a decode error "if the bytes cannot be interpreted as an image"
    and give the image otherwise. *)
Definition open (fp : Blob) : Result Image :=
  match fp with
  | Encoded _ raster => Ok raster
  | Unrecognised _ => Raise UnidentifiedImageError
  end.

(** [max(min(math.floor(number), math.ceil(number), key=key), 1)];
    [min] keeps its first argument unless the second has a strictly
    smaller key. *)
Definition round_aspect (number : Q) (key : Z -> Q) : Z :=
  let lo := Qfloor number in
  let hi := Qceiling number in
  Z.max (if Qle_bool (key lo) (key hi) then lo else hi) 1.

(** Modelled from the spec: the body of [Image.thumbnail] belongs to the
    imaging library and is not under src/.  The spec (component design,
    step 3) asks for the standard contain-within-bounding-box policy:
    neither side above the box, aspect ratio kept, no upscaling.  The
    definition is the library's [preserve_aspect_ratio], which implements
    that policy; its true divisions are taken over exact rationals.
    [None] stands for the early [return] that leaves the image alone. *)
Definition preserve_aspect_ratio (provided_size : Z * Z) (self : Image)
  : Result (option (Z * Z)) :=
  let '(x, y) := provided_size in
  if (x >=? width self) && (y >=? height self) then Ok None
  else if height self =? 0 then Raise ZeroDivisionError
  else
    let aspect := (inject_Z (width self) / inject_Z (height self))%Q in
    if y =? 0 then Raise ZeroDivisionError
    else if Qle_bool aspect (inject_Z x / inject_Z y) then
      Ok (Some (round_aspect (inject_Z y * aspect)
                  (fun n => Qabs (aspect - inject_Z n / inject_Z y)), y))
    else if Qeq_bool aspect 0 then Raise ZeroDivisionError
    else
      Ok (Some (x, round_aspect (inject_Z x / aspect)
                     (fun n => if n =? 0 then 0%Q
                               else Qabs (aspect - inject_Z x / inject_Z n))))%Q.

(** [img.thumbnail(size)]: the image is changed in place, so the model
    returns the image the name is bound to afterwards. *)
Definition thumbnail (self : Image) (size : Z * Z) : Result Image :=
  match preserve_aspect_ratio size self with
  | Raise e => Raise e
  | Ok None => Ok self
  | Ok (Some (x, y)) => Ok {| mode := mode self; width := x; height := y |}
  end.

(** Modelled from the spec: the JPEG encoder belongs to the imaging
    library and is not under src/; the spec (component design, step 4)
    only has the raster encoded "as JPEG into an in-memory buffer".  Which
    rasters the encoder takes is the library's matter: its JPEG plugin
    looks the mode up in this table, [RAWMODE], and refuses the others. *)
Definition RAWMODE : gmap string string :=
  list_to_map [("1", "L"); ("L", "L"); ("RGB", "RGB"); ("RGBX", "RGB");
               ("CMYK", "CMYK;I"); ("YCbCr", "YCbCr")].

(** Modelled from the spec: [img.save(buffer, 'JPEG')] (component design,
    step 4), with the two refusals of the library's JPEG plugin, an empty
    raster and a mode outside [RAWMODE]; after [buffer.seek(0)] the buffer
    reads as the encoded file. *)
Definition save_jpeg (self : Image) : Result Blob :=
  if (width self =? 0) || (height self =? 0) then
    Raise (ValueError "cannot write empty image as JPEG")
  else
    match RAWMODE !! mode self with
    | None => Raise (OSError ("cannot write mode " +:+ mode self +:+ " as JPEG"))
    | Some _ => Ok (Encoded "JPEG" self)
    end.

(** What "the aspect ratio matches within integer rounding" means for a
    source raster and its thumbnail in a square box: one side is the
    source side capped at the box, and the other is less than one unit
    away from the exactly proportional length (the inequalities are the
    ones between rationals, multiplied out). *)
Definition within_rounding (src out : Image) (box : Z) : Prop :=
  (height out = Z.min (height src) box /\
   Z.abs (width out * height src - height out * width src) < height src) \/
  (width out = Z.min (width src) box /\
   Z.abs (height out * width src - width out * height src) < width src).

Example thumbnail_cat :
  thumbnail (mkImage "RGB" 1000 500) (300, 300) = Ok (mkImage "RGB" 300 150).
Proof. reflexivity. Qed.

Example thumbnail_small :
  thumbnail (mkImage "RGB" 120 80) (300, 300) = Ok (mkImage "RGB" 120 80).
Proof. reflexivity. Qed.

Example thumbnail_tall :
  thumbnail (mkImage "L" 400 1000) (300, 300) = Ok (mkImage "L" 120 300).
Proof. reflexivity. Qed.

Example thumbnail_sliver :
  thumbnail (mkImage "L" 10000 1) (300, 300) = Ok (mkImage "L" 300 1).
Proof. reflexivity. Qed.

Example save_rgba :
  save_jpeg (mkImage "RGBA" 300 150) = Raise (OSError "cannot write mode RGBA as JPEG").
Proof. reflexivity. Qed.

Example save_rgb :
  save_jpeg (mkImage "RGB" 300 150) = Ok (Encoded "JPEG" (mkImage "RGB" 300 150)).
Proof. reflexivity. Qed.

(** *** Rationals built from integers *)

Lemma round_aspect_spec (number : Q) (key : Z -> Q) (B : Z) :
  (0 < number)%Q -> (number <= inject_Z B)%Q ->
  1 <= round_aspect number key <= Z.max B 1 /\
  (inject_Z (round_aspect number key) - 1 < number)%Q /\
  (number < inject_Z (round_aspect number key) + 1)%Q.
Proof.
  intros Hpos Hle. unfold round_aspect.
  pose proof (Qfloor_le number) as Hf1.
  pose proof (Qlt_floor number) as Hf2.
  pose proof (Qle_ceiling number) as Hc1.
  pose proof (Qceiling_lt number) as Hc2.
  assert (Hc3 : Qceiling number <= B).
  { rewrite <- (Qceiling_Z B). apply Qceiling_resp_le, Hle. }
  assert (Hf0 : 0 <= Qfloor number).
  { change 0 with (Qfloor 0). apply Qfloor_resp_le. lra. }
  assert (Hfc : Qfloor number <= Qceiling number).
  { rewrite Zle_Qle. lra. }
  assert (Hc0 : 1 <= Qceiling number).
  { assert (0 < Qceiling number); [|lia]. rewrite Zlt_Qlt. change (inject_Z 0) with 0%Q. lra. }
  rewrite inject_Z_plus in Hf2. unfold Z.sub in Hc2; rewrite inject_Z_plus, inject_Z_opp in Hc2.
  change (inject_Z 1) with 1%Q in *.
  destruct (Qle_bool _ _).
  - destruct (Z.max_spec (Qfloor number) 1) as [[H1 ->]|[H1 ->]].
    + assert (E : Qfloor number = 0) by lia. rewrite E in Hf2.
      change (inject_Z 0) with 0%Q in Hf2. change (inject_Z 1) with 1%Q.
      split; [lia|]. split; lra.
    + split; [lia|]. split; lra.
  - rewrite Z.max_l by lia. split; [lia|]. split; lra.
Qed.

Lemma Qdiv_Z_lt_l (a b c : Z) : 0 < b ->
  (inject_Z c < inject_Z a / inject_Z b)%Q <-> c * b < a.
Proof.
  intros Hb. destruct b as [|p|p]; try lia.
  unfold Qlt, Qdiv, Qmult, Qinv, inject_Z; simpl. lia.
Qed.

Lemma Qdiv_Z_lt_r (a b c : Z) : 0 < b ->
  (inject_Z a / inject_Z b < inject_Z c)%Q <-> a < c * b.
Proof.
  intros Hb. destruct b as [|p|p]; try lia.
  unfold Qlt, Qdiv, Qmult, Qinv, inject_Z; simpl. lia.
Qed.

Lemma Qdiv_Z_le_r (a b c : Z) : 0 < b ->
  (inject_Z a / inject_Z b <= inject_Z c)%Q <-> a <= c * b.
Proof.
  intros Hb. destruct b as [|p|p]; try lia.
  unfold Qle, Qdiv, Qmult, Qinv, inject_Z; simpl. lia.
Qed.

Lemma Qdiv_Z_le (a b c d : Z) : 0 < b -> 0 < d ->
  (inject_Z a / inject_Z b <= inject_Z c / inject_Z d)%Q <-> a * d <= c * b.
Proof.
  intros Hb Hd. destruct b as [|p|p]; try lia. destruct d as [|q|q]; try lia.
  unfold Qle, Qdiv, Qmult, Qinv, inject_Z; simpl. lia.
Qed.

Lemma Qmul_div_Z (y w h : Z) : 0 < h ->
  (inject_Z y * (inject_Z w / inject_Z h) == inject_Z (y * w) / inject_Z h)%Q.
Proof.
  intros Hh. destruct h as [|p|p]; try lia.
  unfold Qeq, Qdiv, Qmult, Qinv, inject_Z; simpl. lia.
Qed.

Lemma Qdiv_div_Z (x w h : Z) : 0 < w -> 0 < h ->
  (inject_Z x / (inject_Z w / inject_Z h) == inject_Z (x * h) / inject_Z w)%Q.
Proof.
  intros Hw Hh. destruct h as [|p|p]; try lia. destruct w as [|q|q]; try lia.
  unfold Qeq, Qdiv, Qmult, Qinv, inject_Z; simpl. lia.
Qed.

(** *** What [preserve_aspect_ratio] returns on a proper image *)

(** The width chosen for an image at least as tall as the box. *)
Lemma round_width_spec (w h bx by_ : Z) (key : Z -> Q) :
  0 < w -> 0 < h -> 1 <= bx -> 1 <= by_ ->
  w * by_ <= bx * h -> by_ <= h ->
  let x := round_aspect (inject_Z by_ * (inject_Z w / inject_Z h)) key in
  1 <= x <= Z.min bx w /\ Z.abs (x * h - by_ * w) < h.
Proof.
  intros Hw Hh Hbx Hby Hasp Hlt x. subst x.
  set (number := (inject_Z by_ * (inject_Z w / inject_Z h))%Q).
  assert (Hnum : (number == inject_Z (by_ * w) / inject_Z h)%Q)
    by (apply Qmul_div_Z; exact Hh).
  destruct (round_aspect_spec number key (Z.min bx w)) as (Hr & Hlo & Hhi).
  - rewrite Hnum. change 0%Q with (inject_Z 0). apply Qdiv_Z_lt_l; nia.
  - rewrite Hnum. apply Qdiv_Z_le_r; nia.
  - set (r := round_aspect number key) in *.
    rewrite Hnum in Hlo, Hhi.
    change (inject_Z r - 1)%Q with (inject_Z r + - inject_Z 1)%Q in Hlo.
    rewrite <- inject_Z_opp, <- inject_Z_plus in Hlo.
    change (inject_Z r + 1)%Q with (inject_Z r + inject_Z 1)%Q in Hhi.
    rewrite <- inject_Z_plus in Hhi.
    apply (proj1 (Qdiv_Z_lt_l _ _ _ Hh)) in Hlo.
    apply (proj1 (Qdiv_Z_lt_r _ _ _ Hh)) in Hhi.
    split; [lia|]. apply Z.abs_lt. nia.
Qed.

(** The height chosen for an image wider than the box. *)
Lemma round_height_spec (w h bx by_ : Z) (key : Z -> Q) :
  0 < w -> 0 < h -> 1 <= bx -> 1 <= by_ ->
  bx * h < w * by_ -> bx <= w ->
  let y := round_aspect (inject_Z bx / (inject_Z w / inject_Z h)) key in
  1 <= y <= Z.min by_ h /\ Z.abs (y * w - bx * h) < w.
Proof.
  intros Hw Hh Hbx Hby Hasp Hlt y. subst y.
  set (number := (inject_Z bx / (inject_Z w / inject_Z h))%Q).
  assert (Hnum : (number == inject_Z (bx * h) / inject_Z w)%Q)
    by (apply Qdiv_div_Z; assumption).
  destruct (round_aspect_spec number key (Z.min by_ h)) as (Hr & Hlo & Hhi).
  - rewrite Hnum. change 0%Q with (inject_Z 0). apply Qdiv_Z_lt_l; nia.
  - rewrite Hnum. apply Qdiv_Z_le_r; nia.
  - set (r := round_aspect number key) in *.
    rewrite Hnum in Hlo, Hhi.
    change (inject_Z r - 1)%Q with (inject_Z r + - inject_Z 1)%Q in Hlo.
    rewrite <- inject_Z_opp, <- inject_Z_plus in Hlo.
    change (inject_Z r + 1)%Q with (inject_Z r + inject_Z 1)%Q in Hhi.
    rewrite <- inject_Z_plus in Hhi.
    apply (proj1 (Qdiv_Z_lt_l _ _ _ Hw)) in Hlo.
    apply (proj1 (Qdiv_Z_lt_r _ _ _ Hw)) in Hhi.
    split; [lia|]. apply Z.abs_lt. nia.
Qed.

Lemma preserve_aspect_ratio_spec (bx by_ : Z) (self : Image) :
  1 <= bx -> 1 <= by_ -> 0 < width self -> 0 < height self ->
  match preserve_aspect_ratio (bx, by_) self with
  | Ok None => width self <= bx /\ height self <= by_
  | Ok (Some (x, y)) =>
      ~ (width self <= bx /\ height self <= by_) /\
      1 <= x <= Z.min bx (width self) /\
      1 <= y <= Z.min by_ (height self) /\
      ((y = by_ /\ Z.abs (x * height self - y * width self) < height self) \/
       (x = bx /\ Z.abs (y * width self - x * height self) < width self))
  | Raise _ => False
  end.
Proof.
  destruct self as [m w h]. cbn [width height]. intros Hbx Hby Hw Hh.
  cbv beta iota zeta delta [preserve_aspect_ratio width height].
  rewrite !Z.geb_leb.
  destruct ((w <=? bx) && (h <=? by_)) eqn:Efit.
  { apply andb_true_iff in Efit as [Ew Eh]. lia. }
  assert (Hnofit : ~ (w <= bx /\ h <= by_)).
  { intros [? ?]. apply andb_false_iff in Efit as [E|E]; lia. }
  destruct (h =? 0) eqn:Eh0; [lia|].
  destruct (by_ =? 0) eqn:Eb0; [lia|].
  destruct (Qle_bool (inject_Z w / inject_Z h) (inject_Z bx / inject_Z by_)) eqn:Easp.
  - apply Qle_bool_iff in Easp.
    apply (proj1 (Qdiv_Z_le w h bx by_ Hh ltac:(lia))) in Easp.
    assert (Hby' : by_ <= h) by nia.
    destruct (round_width_spec w h bx by_
                (fun n => Qabs (inject_Z w / inject_Z h - inject_Z n / inject_Z by_))
                Hw Hh Hbx Hby Easp Hby') as [Hx Htol].
    cbv beta iota.
    split; [exact Hnofit|]. split; [exact Hx|]. split; [lia|].
    left. split; [reflexivity | exact Htol].
  - assert (Hasp : bx * h < w * by_).
    { destruct (Z.lt_ge_cases (bx * h) (w * by_)) as [H|H]; [exact H|].
      assert (Hq : (inject_Z w / inject_Z h <= inject_Z bx / inject_Z by_)%Q)
        by (apply Qdiv_Z_le; lia).
      apply Qle_bool_iff in Hq. congruence. }
    destruct (Qeq_bool (inject_Z w / inject_Z h) 0) eqn:Ez.
    { apply Qeq_bool_iff in Ez.
      assert (Hq : (inject_Z 0 < inject_Z w / inject_Z h)%Q)
        by (apply Qdiv_Z_lt_l; lia).
      change (inject_Z 0) with 0%Q in Hq. rewrite Ez in Hq.
      exact (Qlt_irrefl _ Hq). }
    assert (Hbx' : bx <= w) by nia.
    destruct (round_height_spec w h bx by_
                (fun n => if n =? 0 then 0%Q
                          else Qabs (inject_Z w / inject_Z h - inject_Z bx / inject_Z n))
                Hw Hh Hbx Hby Hasp Hbx') as [Hy Htol].
    cbv beta iota.
    split; [exact Hnofit|]. split; [lia|]. split; [exact Hy|].
    right. split; [reflexivity | exact Htol].
Qed.

Lemma thumbnail_fits (src : Image) :
  width src <= 300 -> height src <= 300 -> thumbnail src (300, 300) = Ok src.
Proof.
  intros Hw Hh. unfold thumbnail, preserve_aspect_ratio. rewrite !Z.geb_leb.
  replace (width src <=? 300) with true by (symmetry; apply Z.leb_le; exact Hw).
  replace (height src <=? 300) with true by (symmetry; apply Z.leb_le; exact Hh).
  reflexivity.
Qed.

Lemma thumbnail_mode (src out : Image) (size : Z * Z) :
  thumbnail src size = Ok out -> mode out = mode src.
Proof.
  unfold thumbnail. destruct (preserve_aspect_ratio size src) as [[[x y]|]|e].
  - intros [= <-]. reflexivity.
  - intros [= <-]. reflexivity.
  - discriminate.
Qed.

(** On a raster with positive sides [thumbnail] does not raise, and its
    result fits the box, is no larger than the source and keeps the
    proportions up to rounding. *)
Lemma thumbnail_300 (src : Image) :
  0 < width src -> 0 < height src ->
  exists out,
    thumbnail src (300, 300) = Ok out /\
    mode out = mode src /\
    1 <= width out <= Z.min 300 (width src) /\
    1 <= height out <= Z.min 300 (height src) /\
    within_rounding src out 300.
Proof.
  intros Hw Hh.
  pose proof (preserve_aspect_ratio_spec 300 300 src ltac:(lia) ltac:(lia) Hw Hh) as H.
  unfold thumbnail.
  destruct (preserve_aspect_ratio (300, 300) src) as [[[x y]|]|e]; [| |contradiction].
  - destruct H as (Hno & Hx & Hy & Htol).
    eexists. split; [reflexivity|]. cbn [mode width height].
    split; [reflexivity|]. split; [exact Hx|]. split; [exact Hy|].
    unfold within_rounding. cbn [width height].
    destruct Htol as [[-> Ht]|[-> Ht]]; [left | right]; (split; [lia | exact Ht]).
  - destruct H as [Hx Hy]. exists src. split; [reflexivity|].
    split; [reflexivity|]. split; [lia|]. split; [lia|].
    left. split; [lia|].
    replace (width src * height src - height src * width src) with 0 by ring.
    exact Hh.
Qed.

End PIL.

(** ** Naive datetimes and [isoformat] *)

Module pydatetime.

(** A [datetime] without [tzinfo], as [datetime.utcnow()] builds it. *)
Record datetime : Type := mkDatetime {
  year : Z;
  month : Z;
  day : Z;
  hour : Z;
  minute : Z;
  second : Z;
  microsecond : Z
}.

Definition MINYEAR : Z := 1.
Definition MAXYEAR : Z := 9999.

(** [year % 4 == 0 and (year % 100 != 0 or year % 400 == 0)] *)
Definition _is_leap (y : Z) : bool :=
  (y mod 4 =? 0) && (negb (y mod 100 =? 0) || (y mod 400 =? 0)).

Definition _days_in_month (y m : Z) : Z :=
  match m with
  | 2 => if _is_leap y then 29 else 28
  | 4 | 6 | 9 | 11 => 30
  | _ => 31
  end.

(** The range checks of the constructor ([_check_date_fields] and
    [_check_time_fields]); every [datetime] object has passed them. *)
Definition check_fields (d : datetime) : bool :=
  (MINYEAR <=? year d) && (year d <=? MAXYEAR) &&
  (1 <=? month d) && (month d <=? 12) &&
  (1 <=? day d) && (day d <=? _days_in_month (year d) (month d)) &&
  (0 <=? hour d) && (hour d <=? 23) &&
  (0 <=? minute d) && (minute d <=? 59) &&
  (0 <=? second d) && (second d <=? 59) &&
  (0 <=? microsecond d) && (microsecond d <=? 999999).

(** The character of a decimal digit. *)
Definition digit (n : Z) : ascii := ascii_of_nat (Z.to_nat (48 + n)).

(** ["%0<w>d" % n] for [0 <= n]: the decimal digits of [n], with zeros in
    front up to width [w].  Digits are produced from the least significant
    one; [fuel] bounds their number. *)
Fixpoint fmt_d_aux (fuel w : nat) (n : Z) (acc : string) : string :=
  match fuel with
  | O => acc
  | S fuel' =>
      let acc' := String (digit (n mod 10)) acc in
      if (n / 10 =? 0) && (w <=? 1)%nat then acc'
      else fmt_d_aux fuel' (w - 1)%nat (n / 10) acc'
  end.

Definition fmt_d (w : nat) (n : Z) : string :=
  fmt_d_aux (S (Z.to_nat n + w)) w n EmptyString.

(** [_format_time(hh, mm, ss, us)] with [timespec='auto']: microseconds
    are printed only when they are not zero. *)
Definition _format_time (hh mm ss us : Z) : string :=
  fmt_d 2 hh +:+ ":" +:+ fmt_d 2 mm +:+ ":" +:+ fmt_d 2 ss +:+
  (if us =? 0 then EmptyString else "." +:+ fmt_d 6 us).

(** [self.isoformat()] with the default separator; a naive datetime has
    no offset, so nothing follows the time. *)
Definition isoformat (self : datetime) : string :=
  fmt_d 4 (year self) +:+ "-" +:+ fmt_d 2 (month self) +:+ "-" +:+
  fmt_d 2 (day self) +:+ "T" +:+
  _format_time (hour self) (minute self) (second self) (microsecond self).

(** Datetimes compare as the tuples of their fields. *)
Definition to_tuple (d : datetime) : list Z :=
  [year d; month d; day d; hour d; minute d; second d; microsecond d].

Fixpoint tuple_leb (a b : list Z) : bool :=
  match a, b with
  | [], _ => true
  | _ :: _, [] => false
  | x :: a', y :: b' => (x <? y) || ((x =? y) && tuple_leb a' b')
  end.

(** [d1 <= d2] *)
Definition dt_le (d1 d2 : datetime) : Prop :=
  tuple_leb (to_tuple d1) (to_tuple d2) = true.

(** *** ISO 8601, read back

    The extended calendar date and time of day of ISO 8601,
    [YYYY-MM-DDThh:mm:ss] with an optional fraction of six digits, read
    into its fields; the fields must name a real date and time. *)

Definition digit_value (c : ascii) : option Z :=
  let n := Z.of_nat (nat_of_ascii c) in
  if (48 <=? n) && (n <=? 57) then Some (n - 48) else None.

(** Read exactly [w] digits. *)
Fixpoint take_digits (w : nat) (s : string) (acc : Z) : option (Z * string) :=
  match w with
  | O => Some (acc, s)
  | S w' =>
      match s with
      | EmptyString => None
      | String c s' =>
          match digit_value c with
          | Some v => take_digits w' s' (10 * acc + v)
          | None => None
          end
      end
  end.

(** Read one given character. *)
Definition take_char (c : ascii) (s : string) : option string :=
  match s with
  | String a s' => if Ascii.eqb a c then Some s' else None
  | EmptyString => None
  end.

(** The optional fraction. *)
Definition take_fraction (s : string) : option (Z * string) :=
  match s with
  | EmptyString => Some (0, s)
  | _ => s ← take_char "." s; take_digits 6 s 0
  end.

Definition parse_iso8601 (s : string) : option datetime :=
  '(y, s) ← take_digits 4 s 0;
  s ← take_char "-" s;
  '(mo, s) ← take_digits 2 s 0;
  s ← take_char "-" s;
  '(d, s) ← take_digits 2 s 0;
  s ← take_char "T" s;
  '(h, s) ← take_digits 2 s 0;
  s ← take_char ":" s;
  '(mi, s) ← take_digits 2 s 0;
  s ← take_char ":" s;
  '(se, s) ← take_digits 2 s 0;
  '(us, s) ← take_fraction s;
  let d := mkDatetime y mo d h mi se us in
  match s with
  | EmptyString => if check_fields d then Some d else None
  | _ => None
  end.



(** Exactly [w] digits of [n], in front of [acc]. *)
Fixpoint zdigits (w : nat) (n : Z) (acc : string) : string :=
  match w with
  | O => acc
  | S w' => zdigits w' (n / 10) (String (digit (n mod 10)) acc)
  end.

Example isoformat_micro :
  isoformat (mkDatetime 2024 3 9 7 5 0 1234) = "2024-03-09T07:05:00.001234".
Proof. reflexivity. Qed.

Example isoformat_whole_second :
  isoformat (mkDatetime 987 12 31 23 59 59 0) = "0987-12-31T23:59:59".
Proof. reflexivity. Qed.

Example parse_iso8601_micro :
  parse_iso8601 "2024-03-09T07:05:00.001234" = Some (mkDatetime 2024 3 9 7 5 0 1234).
Proof. reflexivity. Qed.

Example parse_iso8601_rejects :
  parse_iso8601 "2024-02-30T07:05:00" = None /\ parse_iso8601 "2024-3-9 7:05" = None.
Proof. split; reflexivity. Qed.

(** *** [isoformat] writes what [parse_iso8601] reads *)

Lemma zdigits_app (w : nat) (n : Z) (acc rest : string) :
  zdigits w n acc +:+ rest = zdigits w n (acc +:+ rest).
Proof.
  revert n acc. induction w as [|w IH]; intros n acc; [reflexivity|].
  cbn [zdigits]. rewrite IH, append_cons. reflexivity.
Qed.

Lemma fmt_d_aux_exact (w fuel : nat) (n : Z) (acc : string) :
  (1 <= w)%nat -> (w <= fuel)%nat -> 0 <= n < 10 ^ Z.of_nat w ->
  fmt_d_aux fuel w n acc = zdigits w n acc.
Proof.
  revert fuel n acc. induction w as [|w IH]; intros fuel n acc Hw Hf Hn; [lia|].
  destruct fuel as [|fuel]; [lia|]. cbn [fmt_d_aux zdigits].
  rewrite Nat2Z.inj_succ, Z.pow_succ_r in Hn by lia.
  destruct w as [|w].
  - replace (n / 10) with 0 by (symmetry; apply Z.div_small; lia). reflexivity.
  - replace (S (S w) <=? 1)%nat with false by reflexivity.
    rewrite andb_false_r. replace (S (S w) - 1)%nat with (S w) by lia.
    apply IH; [lia|lia|].
    split; [apply Z.div_pos; lia|]. apply Z.div_lt_upper_bound; lia.
Qed.

Lemma fmt_d_exact (w : nat) (n : Z) :
  (1 <= w)%nat -> 0 <= n < 10 ^ Z.of_nat w ->
  fmt_d w n = zdigits w n EmptyString.
Proof. intros Hw Hn. unfold fmt_d. apply fmt_d_aux_exact; lia. Qed.

Lemma digit_value_digit (d : Z) : 0 <= d < 10 -> digit_value (digit d) = Some d.
Proof.
  intros Hd.
  assert (H : d = 0 \/ d = 1 \/ d = 2 \/ d = 3 \/ d = 4 \/
              d = 5 \/ d = 6 \/ d = 7 \/ d = 8 \/ d = 9) by lia.
  repeat (destruct H as [->|H]; [reflexivity|]). subst d. reflexivity.
Qed.

Lemma take_digits_add (w1 w2 : nat) (s : string) (a : Z) :
  take_digits (w1 + w2) s a =
  match take_digits w1 s a with
  | Some (a', s') => take_digits w2 s' a'
  | None => None
  end.
Proof.
  revert s a. induction w1 as [|w1 IH]; intros s a; [reflexivity|].
  cbn [Nat.add take_digits]. destruct s as [|c s]; [reflexivity|].
  destruct (digit_value c); [apply IH | reflexivity].
Qed.

Lemma take_digits_zdigits (w : nat) (n : Z) (rest : string) (a : Z) :
  0 <= n < 10 ^ Z.of_nat w ->
  take_digits w (zdigits w n rest) a = Some (a * 10 ^ Z.of_nat w + n, rest).
Proof.
  revert n rest a. induction w as [|w IH]; intros n rest a Hn.
  - cbn. f_equal. f_equal. change (10 ^ Z.of_nat 0) with 1 in Hn. lia.
  - rewrite Nat2Z.inj_succ, Z.pow_succ_r in * by lia.
    replace (S w) with (w + 1)%nat at 1 by lia.
    rewrite take_digits_add. cbn [zdigits]. rewrite IH.
    + cbn [take_digits]. rewrite digit_value_digit
        by (apply Z.mod_pos_bound; lia).
      f_equal. f_equal. pose proof (Z.div_mod n 10). lia.
    + split; [apply Z.div_pos; lia|]. apply Z.div_lt_upper_bound; lia.
Qed.

(** A field printed with ["%0<w>d"] and followed by [rest] reads back. *)
Lemma take_digits_fmt_d (w : nat) (n : Z) (rest : string) :
  (1 <= w)%nat -> 0 <= n < 10 ^ Z.of_nat w ->
  take_digits w (fmt_d w n +:+ rest) 0 = Some (n, rest).
Proof.
  intros Hw Hn. rewrite (fmt_d_exact w n Hw Hn), zdigits_app, append_nil_l.
  rewrite (take_digits_zdigits w n rest 0 Hn). reflexivity.
Qed.

Lemma check_fields_ranges (d : datetime) :
  check_fields d = true ->
  0 <= year d < 10 ^ 4 /\ 0 <= month d < 10 ^ 2 /\ 0 <= day d < 10 ^ 2 /\
  0 <= hour d < 10 ^ 2 /\ 0 <= minute d < 10 ^ 2 /\ 0 <= second d < 10 ^ 2 /\
  0 <= microsecond d < 10 ^ 6.
Proof.
  unfold check_fields, MINYEAR, MAXYEAR. intros H.
  repeat (apply andb_true_iff in H as [H ?]).
  assert (_days_in_month (year d) (month d) <= 31).
  { unfold _days_in_month.
    repeat match goal with
           | |- context [match ?x with _ => _ end] => destruct x
           end; lia. }
  lia.
Qed.

Lemma take_char_lit (c : ascii) (rest : string) :
  take_char c (String c EmptyString +:+ rest) = Some rest.
Proof.
  rewrite append_cons, append_nil_l. cbn [take_char].
  rewrite Ascii.eqb_refl. reflexivity.
Qed.

Lemma take_fraction_fmt (us : Z) :
  0 <= us < 10 ^ 6 ->
  take_fraction (if us =? 0 then EmptyString else "." +:+ fmt_d 6 us)
  = Some (us, EmptyString).
Proof.
  intros Hus. destruct (us =? 0) eqn:E.
  - apply Z.eqb_eq in E. subst us. reflexivity.
  - rewrite append_cons, append_nil_l. cbn [take_fraction take_char].
    rewrite Ascii.eqb_refl. cbn [mbind option_bind].
    rewrite <- (append_empty_r (fmt_d 6 us)).
    apply take_digits_fmt_d; [lia | exact Hus].
Qed.

Ltac read_back :=
  repeat first
    [ rewrite take_digits_fmt_d by (first [assumption | lia])
    | rewrite take_char_lit
    | rewrite take_fraction_fmt by assumption
    | progress cbn [mbind option_bind] ].

(** Printing a datetime and reading the string gives the datetime back. *)
Lemma parse_isoformat (d : datetime) :
  check_fields d = true -> parse_iso8601 (isoformat d) = Some d.
Proof.
  intros Hc.
  destruct (check_fields_ranges d Hc) as (Hy & Hmo & Hd & Hh & Hmi & Hs & Hus).
  destruct d as [y mo dd h mi se us].
  cbn [year month day hour minute second microsecond] in *.
  unfold parse_iso8601, isoformat, _format_time.
  cbn [year month day hour minute second microsecond].
  change (Z.of_nat 4) with 4 in *.
  read_back. rewrite Hc. reflexivity.
Qed.







(** Two valid datetimes with the same ISO rendering are the same
    datetime: the string keeps every field of the instant. *)
Theorem isoformat_keeps_the_instant (d1 d2 : datetime) :
  check_fields d1 = true -> check_fields d2 = true ->
  isoformat d1 = isoformat d2 -> d1 = d2.
Proof.
  intros H1 H2 Heq.
  pose proof (parse_isoformat d1 H1) as P1. rewrite Heq, (parse_isoformat d2 H2) in P1.
  injection P1 as ->. reflexivity.
Qed.

End pydatetime.

(** ** The world of the handler and the pipeline itself *)

Section Pipeline.

Import posixpath PIL pydatetime.

(** Two sources the handler draws from and cannot steer: the identifiers
    [uuid.uuid4()] hands out, in the order of the draws, and the instants
    [datetime.utcnow()] reads, in the order of the readings. *)
Context (uuid_source : nat -> string) (clock : nat -> datetime).

(** *** Stores and calls *)

(** An object of the object store. *)
Record S3Object : Type := mkS3Object {
  Body : Blob;
  ContentType : string
}.

(** An item of the metadata table: attribute names to string values. *)
Abbreviation Item := (gmap string string).

(** The requests sent to the two services. *)
Inductive Call : Type :=
| GetObject (Bucket Key : string)
| PutObject (Bucket Key : string) (content : Blob) (content_type : string)
| PutItem (TableName : string) (item : Item).

(** Everything outside the function: the process environment, the
    buckets, the tables (rows under their [image_id]), how far the two
    sources have been consumed, and the requests sent so far. *)
Record World : Type := mkWorld {
  environ : gmap string string;
  buckets : gmap string (gmap string S3Object);
  tables : gmap string (gmap string Item);
  uuid_drawn : nat;
  clock_read : nat;
  calls : list Call
}.

Definition record_call (c : Call) (w : World) : World :=
  mkWorld (environ w) (buckets w) (tables w) (uuid_drawn w) (clock_read w)
          (calls w ++ [c]).

Definition with_buckets (b : gmap string (gmap string S3Object)) (w : World) : World :=
  mkWorld (environ w) b (tables w) (uuid_drawn w) (clock_read w) (calls w).

Definition with_tables (t : gmap string (gmap string Item)) (w : World) : World :=
  mkWorld (environ w) (buckets w) t (uuid_drawn w) (clock_read w) (calls w).

Definition next_uuid (w : World) : World :=
  mkWorld (environ w) (buckets w) (tables w) (S (uuid_drawn w)) (clock_read w)
          (calls w).

Definition next_instant (w : World) : World :=
  mkWorld (environ w) (buckets w) (tables w) (uuid_drawn w) (S (clock_read w))
          (calls w).

(** *** Statements that may raise *)

(** A statement runs in a world and leaves a world, with a value or an
    exception; what it did before raising stays done. *)
Definition M (A : Type) : Type := World -> Result A * World.

Definition ret {A : Type} (a : A) : M A := fun w => (Ok a, w).

Definition bind {A B : Type} (m : M A) (k : A -> M B) : M B :=
  fun w =>
    match m w with
    | (Ok a, w') => k a w'
    | (Raise e, w') => (Raise e, w')
    end.

Definition lift {A : Type} (r : Result A) : M A := fun w => (r, w).

Notation "x <- m ;; k" := (bind m (fun x => k))
  (at level 100, m at next level, right associativity).
Notation "m ;;; k" := (bind m (fun _ => k))
  (at level 100, right associativity).

(** [os.environ[name]] *)
Definition os_environ (name : string) : M string :=
  fun w =>
    match environ w !! name with
    | Some v => (Ok v, w)
    | None => (Raise (KeyError name), w)
    end.

(** [str(uuid.uuid4())] *)
Definition uuid4_str : M string :=
  fun w => (Ok (uuid_source (uuid_drawn w)), next_uuid w).

(** [datetime.utcnow()] *)
Definition utcnow : M datetime :=
  fun w => (Ok (clock (clock_read w)), next_instant w).

(** Modelled from the spec: the object store is an external service; its
    read interface (external interfaces) "fails if key absent".
    [s3.get_object(Bucket=..., Key=...)] *)
Definition get_object (Bucket Key : string) : M S3Object :=
  fun w =>
    let w := record_call (GetObject Bucket Key) w in
    match buckets w !! Bucket with
    | None => (Raise (ClientError "NoSuchBucket" "GetObject"), w)
    | Some objects =>
        match objects !! Key with
        | None => (Raise (ClientError "NoSuchKey" "GetObject"), w)
        | Some o => (Ok o, w)
        end
    end.

(** Modelled from the spec: the write interface of the object store
    (external interfaces) "overwrites silently if key already exists"; a
    bucket that does not exist refuses the write.
    [s3.put_object(Bucket=..., Key=..., Body=..., ContentType=...)] *)
Definition put_object (Bucket Key : string) (content : Blob) (content_type : string)
  : M unit :=
  fun w =>
    let w := record_call (PutObject Bucket Key content content_type) w in
    match buckets w !! Bucket with
    | None => (Raise (ClientError "NoSuchBucket" "PutObject"), w)
    | Some objects =>
        (Ok tt,
         with_buckets
           (<[Bucket := <[Key := mkS3Object content content_type]> objects]> (buckets w))
           w)
    end.

(** Modelled from the spec: the key schema of the table is not under
    src/; the spec (component design, step 7) has the record "keyed by the
    generated identifier", so a row lives under its [image_id].
    [table.put_item(Item=...)]: a row already under the key is replaced. *)
Definition put_item (TableName : string) (item : Item) : M unit :=
  fun w =>
    let w := record_call (PutItem TableName item) w in
    match tables w !! TableName with
    | None => (Raise (ClientError "ResourceNotFoundException" "PutItem"), w)
    | Some rows =>
        match item !! "image_id" with
        | None => (Raise (ClientError "ValidationException" "PutItem"), w)
        | Some id =>
            (Ok tt, with_tables (<[TableName := <[id := item]> rows]> (tables w)) w)
        end
    end.

(** *** lambda_function.py *)

(** The notification: [event['Records']], and in each record
    [record['s3']['object']['key']]. *)
Record S3ObjectRef : Type := { key : string }.
Record S3Entity : Type := { object : S3ObjectRef }.
Record EventRecord : Type := { s3 : S3Entity }.
Record S3Event : Type := { Records : list EventRecord }.

Definition record_of_key (k : string) : EventRecord :=
  {| s3 := {| object := {| key := k |} |} |}.

(** The value the handler returns. *)
Record Response : Type := mkResponse {
  statusCode : Z;
  body : string
}.

(** The module's globals: [table = dynamodb.Table(os.environ['DDB_TABLE'])],
    bound when the module is loaded. *)
Record Globals : Type := { table : string }.

Definition load_module : M Globals :=
  name <- os_environ "DDB_TABLE" ;;
  ret {| table := name |}.

(** The [Item] of [table.put_item]. *)
Definition metadata_item
  (image_id original_key resized_key upload_time source_bucket dest_bucket : string)
  : Item :=
  {[ "image_id" := image_id;
     "original_key" := original_key;
     "resized_key" := resized_key;
     "upload_time" := upload_time;
     "source_bucket" := source_bucket;
     "dest_bucket" := dest_bucket ]}.

(** [f"resized/{os.path.basename(key)}"] *)
Definition resized_key_of (k : string) : string := "resized/" +:+ basename k.

(** The body of the [for] loop. *)
Definition process_record (g : Globals) (source_bucket dest_bucket : string)
  (record : EventRecord) : M unit :=
  let key := key (object (s3 record)) in
  image_id <- uuid4_str ;;
  response <- get_object source_bucket key ;;
  img <- lift (PIL.open (Body response)) ;;
  img <- lift (thumbnail img (300, 300)) ;;
  buffer <- lift (save_jpeg img) ;;
  let resized_key := resized_key_of key in
  put_object dest_bucket resized_key buffer "image/jpeg" ;;;
  now <- utcnow ;;
  put_item (table g)
    (metadata_item image_id key resized_key (isoformat now) source_bucket dest_bucket).

(** [for x in xs: body(x)]: an exception leaves the loop. *)
Fixpoint for_each {A : Type} (xs : list A) (body : A -> M unit) : M unit :=
  match xs with
  | [] => ret tt
  | x :: xs' => body x ;;; for_each xs' body
  end.

Definition success_response : Response :=
  mkResponse 200 "Image resized and metadata stored successfully.".

Definition lambda_handler (g : Globals) (event : S3Event) : M Response :=
  source_bucket <- os_environ "SOURCE_BUCKET" ;;
  dest_bucket <- os_environ "DEST_BUCKET" ;;
  for_each (Records event) (process_record g source_bucket dest_bucket) ;;;
  ret success_response.

(** Invocations one after the other; each result goes back to the caller
    of the function and the world is handed on. *)
Fixpoint invoke_all (g : Globals) (events : list S3Event) (w : World)
  : list (Result Response) * World :=
  match events with
  | [] => ([], w)
  | ev :: events' =>
      let '(r, w1) := lambda_handler g ev w in
      let '(rs, w2) := invoke_all g events' w1 in
      (r :: rs, w2)
  end.

(** *** The paths of the loop body, and histories *)

(** The steps of a record that touch nothing but read: fetch, decode,
    shrink, encode.  The value is the raster handed to the encoder. *)
Definition fetch_and_shrink (sb k : string) (w : World) : Result Image :=
  match buckets w !! sb with
  | None => Raise (ClientError "NoSuchBucket" "GetObject")
  | Some objects =>
      match objects !! k with
      | None => Raise (ClientError "NoSuchKey" "GetObject")
      | Some obj =>
          match PIL.open (Body obj) with
          | Raise e => Raise e
          | Ok src =>
              match thumbnail src (300, 300) with
              | Raise e => Raise e
              | Ok out =>
                  match save_jpeg out with
                  | Raise e => Raise e
                  | Ok _ => Ok out
                  end
              end
          end
      end
  end.

(** The item a record writes, from the world it starts in. *)
Definition item_of_record (sb db k : string) (w : World) : Item :=
  metadata_item (uuid_source (uuid_drawn w)) k (resized_key_of k)
    (isoformat (clock (clock_read w))) sb db.

(** The worlds a record can leave behind: after the fetch alone, after an
    upload the store refused, after the upload and a refused metadata
    write, and after all its steps. *)
Definition world_after_fetch (sb k : string) (w : World) : World :=
  mkWorld (environ w) (buckets w) (tables w) (S (uuid_drawn w)) (clock_read w)
    (calls w ++ [GetObject sb k]).

Definition world_after_refused_upload (sb db k : string) (out : Image) (w : World)
  : World :=
  mkWorld (environ w) (buckets w) (tables w) (S (uuid_drawn w)) (clock_read w)
    (calls w ++ [GetObject sb k;
                 PutObject db (resized_key_of k) (Encoded "JPEG" out) "image/jpeg"]).

Definition world_after_refused_item (g : Globals) (sb db k : string) (out : Image)
  (dest : gmap string S3Object) (w : World) : World :=
  mkWorld (environ w)
    (<[db := <[resized_key_of k := mkS3Object (Encoded "JPEG" out) "image/jpeg"]> dest]>
       (buckets w))
    (tables w) (S (uuid_drawn w)) (S (clock_read w))
    (calls w ++ [GetObject sb k;
                 PutObject db (resized_key_of k) (Encoded "JPEG" out) "image/jpeg";
                 PutItem (table g) (item_of_record sb db k w)]).

Definition world_after_record (g : Globals) (sb db k : string) (out : Image)
  (dest : gmap string S3Object) (rows : gmap string Item) (w : World) : World :=
  mkWorld (environ w)
    (<[db := <[resized_key_of k := mkS3Object (Encoded "JPEG" out) "image/jpeg"]> dest]>
       (buckets w))
    (<[table g := <[uuid_source (uuid_drawn w) := item_of_record sb db k w]> rows]>
       (tables w))
    (S (uuid_drawn w)) (S (clock_read w))
    (calls w ++ [GetObject sb k;
                 PutObject db (resized_key_of k) (Encoded "JPEG" out) "image/jpeg";
                 PutItem (table g) (item_of_record sb db k w)]).

Ltac world_simpl H :=
  cbn [buckets tables record_call next_uuid with_buckets next_instant with_tables
       uuid_drawn clock_read calls environ] in H.

Ltac world_simpl_goal :=
  cbn [buckets tables record_call next_uuid with_buckets next_instant with_tables
       uuid_drawn clock_read calls environ].

(** Every record of the list is processed without raising, each in the
    world its predecessor left. *)
Inductive processes_all (g : Globals) (sb db : string)
  : list EventRecord -> World -> World -> Prop :=
| processes_nil (w : World) : processes_all g sb db [] w w
| processes_cons (r : EventRecord) (rs : list EventRecord) (w w1 w2 : World) :
    process_record g sb db r w = (Ok tt, w1) ->
    processes_all g sb db rs w1 w2 ->
    processes_all g sb db (r :: rs) w w2.

(** The items sent to the metadata store, with their table, oldest
    first; their [image_id]s and their [upload_time]s. *)
Definition put_items (cs : list Call) : list (string * Item) :=
  omap (fun c => match c with PutItem t item => Some (t, item) | _ => None end) cs.

Definition image_ids (cs : list Call) : list string :=
  omap (fun p : string * Item => p.2 !! "image_id") (put_items cs).

Definition upload_times (cs : list Call) : list string :=
  omap (fun p : string * Item => p.2 !! "upload_time") (put_items cs).

(** [reaches g w w']: the pipeline gets from [w] to [w'] by loop bodies
    run one after the other, whatever their records, buckets and outcomes:
    the rest of a batch, a later batch, a later invocation. *)
Inductive reaches (g : Globals) : World -> World -> Prop :=
| reaches_here (w : World) : reaches g w w
| reaches_step (sb db : string) (r : EventRecord) (res : Result unit) (w w1 w2 : World) :
    process_record g sb db r w = (res, w1) ->
    reaches g w1 w2 ->
    reaches g w w2.

(** The rows of the table carry identifiers drawn earlier. *)
Definition rows_issued (g : Globals) (w : World) : Prop :=
  forall (rows : gmap string Item) (id : string),
    tables w !! table g = Some rows -> is_Some (rows !! id) ->
    exists i, (i < uuid_drawn w)%nat /\ uuid_source i = id.

(** Among the first [n] identifiers the generator hands out, none comes
    twice. *)
Definition no_repeat_before (n : nat) : Prop :=
  forall i j, (i < n)%nat -> (j < n)%nat -> uuid_source i = uuid_source j -> i = j.

(** The object under a key of a bucket, if the bucket and the key exist. *)
Definition object_at (w : World) (b k : string) : option S3Object :=
  (buckets w !! b) ≫= (.!! k).

(** The downloads and the uploads among the requests, oldest first: bucket
    and key, and for an upload the content type as well. *)
Definition downloads (cs : list Call) : list (string * string) :=
  omap (fun c => match c with GetObject b k => Some (b, k) | _ => None end) cs.

Definition uploads_sent (cs : list Call) : list (string * string * string) :=
  omap (fun c => match c with PutObject b k _ ct => Some (b, k, ct) | _ => None end) cs.

(** *** Running one record *)

Lemma metadata_item_image_id (id k rk t sb db : string) :
  metadata_item id k rk t sb db !! "image_id" = Some id.
Proof. unfold metadata_item. apply lookup_insert_eq. Qed.

Lemma save_jpeg_ok (im : Image) (b : Blob) :
  save_jpeg im = Ok b -> b = Encoded "JPEG" im /\ is_Some (RAWMODE !! mode im).
Proof.
  unfold save_jpeg. destruct (_ || _); [discriminate|].
  destruct (RAWMODE !! mode im) eqn:E; [|discriminate].
  intros [= <-]. split; [reflexivity | eauto].
Qed.

(** The loop body, path by path. *)
Lemma process_record_unfold (g : Globals) (sb db : string) (r : EventRecord) (w : World) :
  let k := key (object (s3 r)) in
  process_record g sb db r w =
  match fetch_and_shrink sb k w with
  | Raise e => (Raise e, world_after_fetch sb k w)
  | Ok out =>
      match buckets w !! db with
      | None => (Raise (ClientError "NoSuchBucket" "PutObject"),
                 world_after_refused_upload sb db k out w)
      | Some dest =>
          match tables w !! table g with
          | None => (Raise (ClientError "ResourceNotFoundException" "PutItem"),
                     world_after_refused_item g sb db k out dest w)
          | Some rows => (Ok tt, world_after_record g sb db k out dest rows w)
          end
      end
  end.
Proof.
  intros k. subst k.
  unfold process_record, fetch_and_shrink, bind, uuid4_str, get_object, lift,
    put_object, utcnow, put_item.
  world_simpl_goal.
  destruct (buckets w !! sb) as [objects|]; world_simpl_goal; [|reflexivity].
  destruct (objects !! key (object (s3 r))) as [obj|]; world_simpl_goal; [|reflexivity].
  destruct (PIL.open (Body obj)) as [src|]; world_simpl_goal; [|reflexivity].
  destruct (thumbnail src (300, 300)) as [out|]; world_simpl_goal; [|reflexivity].
  destruct (save_jpeg out) as [buffer|] eqn:Hsave; world_simpl_goal; [|reflexivity].
  destruct (save_jpeg_ok _ _ Hsave) as [-> _].
  destruct (buckets w !! db) as [dest|]; world_simpl_goal.
  - rewrite metadata_item_image_id.
    destruct (tables w !! table g) as [rows|]; world_simpl_goal.
    + unfold world_after_record, item_of_record, with_tables. world_simpl_goal.
      rewrite <- !app_assoc. reflexivity.
    + unfold world_after_refused_item, item_of_record, record_call. world_simpl_goal.
      rewrite <- !app_assoc. reflexivity.
  - unfold world_after_refused_upload, record_call. world_simpl_goal.
    rewrite <- !app_assoc. reflexivity.
Qed.

(** *** Running a batch *)

Lemma for_each_ok (g : Globals) (sb db : string) (rs : list EventRecord) (w w' : World) :
  for_each rs (process_record g sb db) w = (Ok tt, w') <-> processes_all g sb db rs w w'.
Proof.
  revert w. induction rs as [|r rs IH]; intros w; cbn [for_each].
  - unfold ret. split.
    + intros [= <-]. constructor.
    + inversion 1. reflexivity.
  - unfold bind at 1. split.
    + destruct (process_record g sb db r w) as [[[]|e] w1] eqn:E; [|discriminate].
      intros H. econstructor; [exact E | apply IH, H].
    + inversion 1 as [|? ? ? w1 ? Hr Hrs]; subst. rewrite Hr. apply IH, Hrs.
Qed.

Lemma for_each_app {A : Type} (xs ys : list A) (body : A -> M unit) (w : World) :
  for_each (xs ++ ys) body w =
  match for_each xs body w with
  | (Ok _, w1) => for_each ys body w1
  | (Raise e, w1) => (Raise e, w1)
  end.
Proof.
  revert w. induction xs as [|x xs IH]; intros w; [reflexivity|].
  cbn [app for_each]. unfold bind.
  destruct (body x w) as [[[]|e] w1]; [apply IH | reflexivity].
Qed.

(** The handler, once its two variables are read. *)
Lemma lambda_handler_unfold (g : Globals) (ev : S3Event) (w : World) (sb db : string) :
  environ w !! "SOURCE_BUCKET" = Some sb ->
  environ w !! "DEST_BUCKET" = Some db ->
  lambda_handler g ev w =
  match for_each (Records ev) (process_record g sb db) w with
  | (Ok _, w') => (Ok success_response, w')
  | (Raise e, w') => (Raise e, w')
  end.
Proof.
  intros Hsb Hdb. unfold lambda_handler, bind, os_environ, ret.
  rewrite Hsb, Hdb. reflexivity.
Qed.

(** The handler returns a value only on its last line. *)
Lemma lambda_handler_value (g : Globals) (ev : S3Event) (w w' : World) (resp : Response) :
  lambda_handler g ev w = (Ok resp, w') -> resp = success_response.
Proof.
  unfold lambda_handler, bind, os_environ, ret.
  destruct (environ w !! "SOURCE_BUCKET"); [|discriminate].
  destruct (environ w !! "DEST_BUCKET"); [|discriminate].
  destruct (for_each _ _ w) as [[[]|e] w1]; [|discriminate].
  intros [= <- _]. reflexivity.
Qed.

(** A record is processed without raising along one path only. *)
Lemma process_record_ok (g : Globals) (sb db : string) (r : EventRecord) (w w' : World) :
  process_record g sb db r w = (Ok tt, w') ->
  exists objects obj src out dest rows,
    buckets w !! sb = Some objects /\
    objects !! key (object (s3 r)) = Some obj /\
    PIL.open (Body obj) = Ok src /\
    thumbnail src (300, 300) = Ok out /\
    save_jpeg out = Ok (Encoded "JPEG" out) /\
    buckets w !! db = Some dest /\
    tables w !! table g = Some rows /\
    w' = world_after_record g sb db (key (object (s3 r))) out dest rows w.
Proof.
  rewrite process_record_unfold. cbv zeta. unfold fetch_and_shrink.
  destruct (buckets w !! sb) as [objects|] eqn:Hsb; [|discriminate].
  destruct (objects !! key (object (s3 r))) as [obj|] eqn:Hobj; [|discriminate].
  destruct (PIL.open (Body obj)) as [src|] eqn:Hopen; [|discriminate].
  destruct (thumbnail src (300, 300)) as [out|] eqn:Hthumb; [|discriminate].
  destruct (save_jpeg out) as [buffer|] eqn:Hsave; [|discriminate].
  destruct (save_jpeg_ok _ _ Hsave) as [-> _].
  destruct (buckets w !! db) as [dest|] eqn:Hdb; [|discriminate].
  destruct (tables w !! table g) as [rows|] eqn:Htb; [|discriminate].
  intros [= <-]. exists objects, obj, src, out, dest, rows.
  repeat (split; [first [assumption | reflexivity]|]). reflexivity.
Qed.

(** *** The resized raster *)

(** C1. Every record processed without raising, whose object decodes to
    a raster with positive sides, leaves under the destination key a JPEG
    whose sides are between 1 and 300 (so the longest side is at most 300)
    and whose proportions are the source's up to the rounding of one side
    to an integer. *)
Theorem resized_raster_fits_box
  (g : Globals) (sb db : string) (r : EventRecord) (w w' : World)
  (objects : gmap string S3Object) (obj : S3Object) (src : Image) :
  process_record g sb db r w = (Ok tt, w') ->
  buckets w !! sb = Some objects ->
  objects !! key (object (s3 r)) = Some obj ->
  PIL.open (Body obj) = Ok src ->
  0 < width src -> 0 < height src ->
  exists out dest',
    buckets w' !! db = Some dest' /\
    dest' !! resized_key_of (key (object (s3 r)))
      = Some (mkS3Object (Encoded "JPEG" out) "image/jpeg") /\
    thumbnail src (300, 300) = Ok out /\
    Z.max (width out) (height out) <= 300 /\
    1 <= width out /\ 1 <= height out /\
    within_rounding src out 300.
Proof.
  intros Hrun Hsb Hobj Hopen Hw Hh.
  destruct (process_record_ok _ _ _ _ _ _ Hrun)
    as (objects' & obj' & src' & out & dest & rows & Hsb' & Hobj' & Hopen' & Hth & _ & _ & _ & ->).
  rewrite Hsb in Hsb'. injection Hsb' as <-.
  rewrite Hobj in Hobj'. injection Hobj' as <-.
  rewrite Hopen in Hopen'. injection Hopen' as <-.
  destruct (thumbnail_300 src Hw Hh) as (out' & Hth' & _ & Hx & Hy & Htol).
  rewrite Hth in Hth'. injection Hth' as <-.
  exists out. eexists. cbn [world_after_record buckets].
  split; [apply lookup_insert_eq|]. split; [apply lookup_insert_eq|].
  split; [exact Hth|]. split; [lia|]. split; [lia|]. split; [lia | exact Htol].
Qed.

(** C2. When both sides of the source raster are below 300, the raster
    stored for a processed record is the source raster itself; and for any
    source with positive sides the stored raster is never larger than the
    source on either side. *)
Theorem small_images_are_not_resized
  (g : Globals) (sb db : string) (r : EventRecord) (w w' : World)
  (objects : gmap string S3Object) (obj : S3Object) (src : Image) :
  process_record g sb db r w = (Ok tt, w') ->
  buckets w !! sb = Some objects ->
  objects !! key (object (s3 r)) = Some obj ->
  PIL.open (Body obj) = Ok src ->
  exists out dest',
    buckets w' !! db = Some dest' /\
    dest' !! resized_key_of (key (object (s3 r)))
      = Some (mkS3Object (Encoded "JPEG" out) "image/jpeg") /\
    (width src < 300 -> height src < 300 ->
     out = src /\ width out = width src /\ height out = height src) /\
    (0 < width src -> 0 < height src ->
     width out <= width src /\ height out <= height src).
Proof.
  intros Hrun Hsb Hobj Hopen.
  destruct (process_record_ok _ _ _ _ _ _ Hrun)
    as (objects' & obj' & src' & out & dest & rows & Hsb' & Hobj' & Hopen' & Hth & _ & _ & _ & ->).
  rewrite Hsb in Hsb'. injection Hsb' as <-.
  rewrite Hobj in Hobj'. injection Hobj' as <-.
  rewrite Hopen in Hopen'. injection Hopen' as <-.
  exists out. eexists. cbn [world_after_record buckets].
  split; [apply lookup_insert_eq|]. split; [apply lookup_insert_eq|]. split.
  - intros Hw Hh. rewrite thumbnail_fits in Hth by lia.
    injection Hth as <-. split; [reflexivity|]. split; reflexivity.
  - intros Hw Hh. destruct (thumbnail_300 src Hw Hh) as (out' & Hth' & _ & Hx & Hy & _).
    rewrite Hth in Hth'. injection Hth' as <-. lia.
Qed.

(** *** The destination key *)

(** C3. The derived object of a processed record is uploaded, once,
    under ["resized/"] followed by the final path segment of the source
    key; a key [d/n] whose last segment is [n] gives ["resized/" n]
    whatever the directory part [d] is. *)
Theorem destination_key_is_resized_basename
  (g : Globals) (sb db : string) (r : EventRecord) (w w' : World) :
  process_record g sb db r w = (Ok tt, w') ->
  let k := key (object (s3 r)) in
  resized_key_of k = "resized/" +:+ final_segment k /\
  (forall d n, k = d +:+ String sep n -> has_sep n = false ->
     resized_key_of k = "resized/" +:+ n) /\
  exists content dest',
    calls w' = calls w ++
      [GetObject sb k;
       PutObject db ("resized/" +:+ final_segment k) content "image/jpeg";
       PutItem (table g) (item_of_record sb db k w)] /\
    buckets w' !! db = Some dest' /\
    dest' !! ("resized/" +:+ final_segment k) = Some (mkS3Object content "image/jpeg").
Proof.
  intros Hrun k.
  assert (Hkey : resized_key_of k = "resized/" +:+ final_segment k).
  { unfold resized_key_of. rewrite basename_final_segment. reflexivity. }
  split; [exact Hkey|]. split.
  { intros d n -> Hn. unfold resized_key_of. rewrite (basename_after_sep d n Hn).
    reflexivity. }
  destruct (process_record_ok _ _ _ _ _ _ Hrun)
    as (objects & obj & src & out & dest & rows & _ & _ & _ & _ & _ & _ & _ & ->).
  fold k. rewrite <- Hkey. exists (Encoded "JPEG" out). eexists.
  cbn [world_after_record calls buckets].
  split; [reflexivity|]. split; apply lookup_insert_eq.
Qed.

(** *** Failure of a record *)

(** C4. When the records before record N are processed and record N
    raises, the handler raises the same exception and stops in the very
    world record N left: later records send no request and write nothing,
    whatever they are.  Nothing is cleaned up: if record N had uploaded its
    derived object before raising, the object is still in the destination
    bucket. *)
Theorem failure_aborts_the_batch
  (g : Globals) (ev : S3Event) (pre post : list EventRecord) (r : EventRecord)
  (sb db : string) (w w1 w2 : World) (e : exn) :
  Records ev = pre ++ r :: post ->
  environ w !! "SOURCE_BUCKET" = Some sb ->
  environ w !! "DEST_BUCKET" = Some db ->
  processes_all g sb db pre w w1 ->
  process_record g sb db r w1 = (Raise e, w2) ->
  lambda_handler g ev w = (Raise e, w2) /\
  (exists sent, calls w2 = calls w1 ++ sent /\
     Forall (fun c => match c with
                      | GetObject _ k' => k' = key (object (s3 r))
                      | PutObject _ k' _ _ => k' = resized_key_of (key (object (s3 r)))
                      | PutItem _ item =>
                          item !! "original_key" = Some (key (object (s3 r)))
                      end) sent) /\
  (forall out dest,
     fetch_and_shrink sb (key (object (s3 r))) w1 = Ok out ->
     buckets w1 !! db = Some dest ->
     exists dest2,
       buckets w2 !! db = Some dest2 /\
       dest2 !! resized_key_of (key (object (s3 r)))
         = Some (mkS3Object (Encoded "JPEG" out) "image/jpeg")).
Proof.
  intros Hrec Hsb Hdb Hpre Hr. split; [|split].
  - rewrite (lambda_handler_unfold g ev w sb db Hsb Hdb), Hrec, for_each_app.
    apply for_each_ok in Hpre. rewrite Hpre. cbn [for_each]. unfold bind.
    rewrite Hr. reflexivity.
  - rewrite process_record_unfold in Hr. cbv zeta in Hr.
    destruct (fetch_and_shrink sb _ w1) as [out|e1].
    + destruct (buckets w1 !! db) as [dest|].
      * destruct (tables w1 !! table g) as [rows|]; [discriminate|].
        injection Hr as _ <-. eexists. split; [reflexivity|].
        repeat constructor.
      * injection Hr as _ <-. eexists. split; [reflexivity|]. repeat constructor.
    + injection Hr as _ <-. eexists. split; [reflexivity|]. repeat constructor.
  - intros out dest Hout Hdest.
    rewrite process_record_unfold in Hr. cbv zeta in Hr. rewrite Hout, Hdest in Hr.
    destruct (tables w1 !! table g) as [rows|]; [discriminate|].
    injection Hr as _ <-. eexists. cbn [world_after_refused_item buckets].
    split; apply lookup_insert_eq.
Qed.

(** *** The value returned *)

(** C5. Whenever the handler returns, it returns the fixed payload; and
    it does return it, in the world the last record left, when every
    record of the batch is processed without raising. *)
Theorem success_payload_is_fixed (g : Globals) (ev : S3Event) (w : World) :
  (forall resp w', lambda_handler g ev w = (Ok resp, w') ->
     resp = mkResponse 200 "Image resized and metadata stored successfully.") /\
  (forall sb db w',
     environ w !! "SOURCE_BUCKET" = Some sb ->
     environ w !! "DEST_BUCKET" = Some db ->
     processes_all g sb db (Records ev) w w' ->
     lambda_handler g ev w
     = (Ok (mkResponse 200 "Image resized and metadata stored successfully."), w')).
Proof.
  split.
  - intros resp w' H. exact (lambda_handler_value g ev w w' resp H).
  - intros sb db w' Hsb Hdb Hall.
    rewrite (lambda_handler_unfold g ev w sb db Hsb Hdb).
    apply for_each_ok in Hall. rewrite Hall. reflexivity.
Qed.

(** C10. On a batch without records the handler returns the fixed
    payload and leaves the world as it found it: no request is sent to the
    object store or to the metadata store, and nothing in them changes. *)
Theorem empty_batch_touches_nothing (g : Globals) (ev : S3Event) (w : World)
  (sb db : string) :
  Records ev = [] ->
  environ w !! "SOURCE_BUCKET" = Some sb ->
  environ w !! "DEST_BUCKET" = Some db ->
  lambda_handler g ev w
  = (Ok (mkResponse 200 "Image resized and metadata stored successfully."), w) /\
  forall resp w', lambda_handler g ev w = (resp, w') ->
    calls w' = calls w /\ buckets w' = buckets w /\ tables w' = tables w.
Proof.
  intros Hrec Hsb Hdb.
  assert (H : lambda_handler g ev w = (Ok success_response, w)).
  { rewrite (lambda_handler_unfold g ev w sb db Hsb Hdb), Hrec. reflexivity. }
  split; [exact H|]. intros resp w' H'. rewrite H in H'.
  injection H' as _ <-. repeat split.
Qed.

(** *** Rasters the JPEG encoder refuses *)

Lemma save_jpeg_refuses (im : Image) :
  1 <= width im -> 1 <= height im -> RAWMODE !! mode im = None ->
  save_jpeg im = Raise (OSError ("cannot write mode " +:+ mode im +:+ " as JPEG")).
Proof.
  intros Hw Hh Hm. unfold save_jpeg.
  replace (width im =? 0) with false by (symmetry; apply Z.eqb_neq; lia).
  replace (height im =? 0) with false by (symmetry; apply Z.eqb_neq; lia).
  cbn [orb]. rewrite Hm. reflexivity.
Qed.

(** C9. An object that exists, is readable and decodes to a raster with
    positive sides, but in a mode the JPEG encoder has no raw mode for (an
    RGBA raster read from a PNG, say), makes its record raise at
    [img.save]: the only request sent is the download, and neither a
    derived object nor a metadata record is written.  A handler run
    starting with such a record stops there. *)
Theorem unencodable_mode_fails_the_record
  (g : Globals) (sb db : string) (r : EventRecord) (w : World)
  (objects : gmap string S3Object) (obj : S3Object) (format : string) (src : Image) :
  buckets w !! sb = Some objects ->
  objects !! key (object (s3 r)) = Some obj ->
  Body obj = Encoded format src ->
  0 < width src -> 0 < height src ->
  RAWMODE !! mode src = None ->
  let oops := OSError ("cannot write mode " +:+ mode src +:+ " as JPEG") in
  PIL.open (Body obj) = Ok src /\
  (exists w',
     process_record g sb db r w = (Raise oops, w') /\
     calls w' = calls w ++ [GetObject sb (key (object (s3 r)))] /\
     buckets w' = buckets w /\ tables w' = tables w /\
     forall ev post,
       Records ev = r :: post ->
       environ w !! "SOURCE_BUCKET" = Some sb ->
       environ w !! "DEST_BUCKET" = Some db ->
       lambda_handler g ev w = (Raise oops, w')).
Proof.
  intros Hsb Hobj Hbody Hw Hh Hmode oops.
  assert (Hopen : PIL.open (Body obj) = Ok src) by (rewrite Hbody; reflexivity).
  split; [exact Hopen|].
  destruct (thumbnail_300 src Hw Hh) as (out & Hth & Hm & Hx & Hy & _).
  assert (Hrun : process_record g sb db r w
                 = (Raise oops, world_after_fetch sb (key (object (s3 r))) w)).
  { rewrite process_record_unfold. cbv zeta. unfold fetch_and_shrink.
    rewrite Hsb, Hobj, Hopen, Hth.
    rewrite (save_jpeg_refuses out) by (first [lia | rewrite Hm; exact Hmode]).
    rewrite Hm. reflexivity. }
  eexists. split; [exact Hrun|]. cbn [world_after_fetch calls buckets tables].
  repeat (split; [reflexivity|]).
  intros ev post Hrec Henv1 Henv2.
  rewrite (lambda_handler_unfold g ev w sb db Henv1 Henv2), Hrec.
  cbn [for_each]. unfold bind. rewrite Hrun. reflexivity.
Qed.

(** *** What the pipeline has sent, and where it can get *)

Lemma reaches_trans (g : Globals) (w1 w2 w3 : World) :
  reaches g w1 w2 -> reaches g w2 w3 -> reaches g w1 w3.
Proof.
  induction 1 as [|sb db r res w w1 w2 Hstep _ IH]; intros H3; [exact H3|].
  eapply reaches_step; [exact Hstep | apply IH, H3].
Qed.

Lemma for_each_reaches (g : Globals) (sb db : string) (rs : list EventRecord)
  (w w' : World) (res : Result unit) :
  for_each rs (process_record g sb db) w = (res, w') -> reaches g w w'.
Proof.
  revert w. induction rs as [|r rs IH]; intros w; cbn [for_each].
  - unfold ret. intros [= _ <-]. constructor.
  - unfold bind. destruct (process_record g sb db r w) as [[[]|e] w1] eqn:E.
    + intros H. eapply reaches_step; [exact E | apply IH, H].
    + intros [= _ <-]. eapply reaches_step; [exact E | constructor].
Qed.

Lemma lambda_handler_reaches (g : Globals) (ev : S3Event) (w w' : World)
  (res : Result Response) :
  lambda_handler g ev w = (res, w') -> reaches g w w'.
Proof.
  unfold lambda_handler, bind, os_environ, ret.
  destruct (environ w !! "SOURCE_BUCKET") as [sb|]; [|intros [= _ <-]; constructor].
  destruct (environ w !! "DEST_BUCKET") as [db|]; [|intros [= _ <-]; constructor].
  destruct (for_each _ _ w) as [[[]|e] w1] eqn:E; intros [= _ <-];
    exact (for_each_reaches _ _ _ _ _ _ _ E).
Qed.

Lemma invoke_all_reaches (g : Globals) (events : list S3Event) (w w' : World)
  (rs : list (Result Response)) :
  invoke_all g events w = (rs, w') -> reaches g w w'.
Proof.
  revert w rs. induction events as [|ev events IH]; intros w rs; cbn [invoke_all].
  - intros [= _ <-]. constructor.
  - destruct (lambda_handler g ev w) as [r w1] eqn:E1.
    destruct (invoke_all g events w1) as [rs' w2] eqn:E2.
    intros [= _ <-]. eapply reaches_trans.
    + exact (lambda_handler_reaches _ _ _ _ _ E1).
    + exact (IH _ _ E2).
Qed.

(** One loop body, seen from the metadata store: one identifier is drawn;
    either no item is sent, or one is sent, carrying the identifier drawn
    and one new reading of the clock, and it becomes a row of the table
    when the table exists. *)
Lemma process_record_step (g : Globals) (sb db : string) (r : EventRecord)
  (res : Result unit) (w w1 : World) :
  process_record g sb db r w = (res, w1) ->
  uuid_drawn w1 = S (uuid_drawn w) /\
  ((put_items (calls w1) = put_items (calls w) /\
    clock_read w1 = clock_read w /\ tables w1 = tables w /\ res <> Ok tt) \/
   (put_items (calls w1)
      = put_items (calls w)
        ++ [(table g, item_of_record sb db (key (object (s3 r))) w)] /\
    clock_read w1 = S (clock_read w) /\
    ((tables w !! table g = None /\ tables w1 = tables w /\ res <> Ok tt) \/
     (exists rows, tables w !! table g = Some rows /\ res = Ok tt /\
        tables w1 = <[table g := <[uuid_source (uuid_drawn w)
                                    := item_of_record sb db (key (object (s3 r))) w]> rows]>
                      (tables w))))).
Proof.
  rewrite process_record_unfold. cbv zeta.
  destruct (fetch_and_shrink sb _ w) as [out|e].
  - destruct (buckets w !! db) as [dest|].
    + destruct (tables w !! table g) as [rows|] eqn:Ht; intros [= <- <-].
      * split; [reflexivity|]. right.
        cbn [world_after_record calls clock_read tables].
        unfold put_items. rewrite omap_app. split; [reflexivity|].
        split; [reflexivity|]. right. exists rows. repeat split.
      * split; [reflexivity|]. right.
        cbn [world_after_refused_item calls clock_read tables].
        unfold put_items. rewrite omap_app. split; [reflexivity|].
        split; [reflexivity|]. left. repeat split. discriminate.
    + intros [= <- <-]. split; [reflexivity|]. left.
      cbn [world_after_refused_upload calls clock_read tables].
      unfold put_items. rewrite omap_app, app_nil_r. repeat split. discriminate.
  - intros [= <- <-]. split; [reflexivity|]. left.
    cbn [world_after_fetch calls clock_read tables].
    unfold put_items. rewrite omap_app, app_nil_r. repeat split. discriminate.
Qed.

(** The identifiers sent between two worlds are draws made in between,
    each used once and in the order of the draws. *)
Lemma reaches_draws (g : Globals) (w w2 : World) :
  reaches g w w2 ->
  (uuid_drawn w <= uuid_drawn w2)%nat /\
  exists draws,
    image_ids (calls w2) = image_ids (calls w) ++ (uuid_source <$> draws) /\
    StronglySorted lt draws /\
    Forall (fun i => uuid_drawn w <= i < uuid_drawn w2)%nat draws.
Proof.
  induction 1 as [w|sb db r res w w1 w2 Hstep _ (Hle & draws & Hids & Hsorted & Hin)].
  - split; [lia|]. exists []. rewrite app_nil_r. repeat constructor.
  - destruct (process_record_step _ _ _ _ _ _ _ Hstep) as (Hu & Hcase).
    split; [lia|].
    assert (Hin' : Forall (fun i => uuid_drawn w < i < uuid_drawn w2)%nat draws).
    { eapply Forall_impl; [exact Hin|]. cbn. intros i Hi. lia. }
    destruct Hcase as [(Hput & _)|(Hput & _)].
    + exists draws. unfold image_ids in *. rewrite Hput in Hids.
      split; [exact Hids|]. split; [exact Hsorted|].
      eapply Forall_impl; [exact Hin'|]. cbn. intros i Hi. lia.
    + exists (uuid_drawn w :: draws). unfold image_ids in *.
      rewrite Hids, Hput, omap_app, <- app_assoc. split; [reflexivity|]. split.
      * constructor; [exact Hsorted|].
        eapply Forall_impl; [exact Hin'|]. cbn. intros i Hi. lia.
      * constructor; [lia|]. eapply Forall_impl; [exact Hin'|]. cbn. intros i Hi. lia.
Qed.


Lemma StronglySorted_lt_NoDup (l : list nat) : StronglySorted lt l -> NoDup l.
Proof.
  induction 1 as [|x l _ IH Hx]; constructor; [|exact IH].
  intros Hel. rewrite Forall_forall in Hx. specialize (Hx x Hel). lia.
Qed.

(** A row of the table stays: later loop bodies delete nothing, and they
    replace the row only by drawing its identifier again. *)
Lemma reaches_keeps_rows (g : Globals) (w w2 : World) :
  reaches g w w2 ->
  forall (rows : gmap string Item) (id : string) (item : Item),
    tables w !! table g = Some rows -> rows !! id = Some item ->
    exists rows2 item2,
      tables w2 !! table g = Some rows2 /\ rows2 !! id = Some item2 /\
      ((forall i, (uuid_drawn w <= i < uuid_drawn w2)%nat -> uuid_source i <> id) ->
       item2 = item).
Proof.
  induction 1 as [w|sb db r res w w1 w2 Hstep Hrest IH]; intros rows id item Ht Hrow.
  - exists rows, item. repeat split; assumption.
  - destruct (process_record_step _ _ _ _ _ _ _ Hstep) as (Hu & Hcase).
    pose proof (proj1 (reaches_draws g w1 w2 Hrest)) as Hmono.
    assert (Hrows1 : exists rows1 item1,
               tables w1 !! table g = Some rows1 /\ rows1 !! id = Some item1 /\
               (uuid_source (uuid_drawn w) <> id -> item1 = item)).
    { destruct Hcase as [(_ & _ & Heq & _)|(_ & _ & [(_ & Heq & _)|(rows' & Ht' & _ & Heq)])].
      - exists rows, item. rewrite Heq. repeat split; assumption.
      - exists rows, item. rewrite Heq. repeat split; assumption.
      - rewrite Ht in Ht'. injection Ht' as <-. rewrite Heq.
        destruct (decide (uuid_source (uuid_drawn w) = id)) as [Hid|Hid].
        + eexists. eexists. split; [apply lookup_insert_eq|].
          split; [rewrite Hid; apply lookup_insert_eq|]. intros Hne. contradiction.
        + eexists. exists item. split; [apply lookup_insert_eq|].
          split; [rewrite lookup_insert_ne by exact Hid; exact Hrow|]. reflexivity. }
    destruct Hrows1 as (rows1 & item1 & Ht1 & Hrow1 & Hkeep).
    destruct (IH rows1 id item1 Ht1 Hrow1) as (rows2 & item2 & H1 & H2 & H3).
    exists rows2, item2. split; [exact H1|]. split; [exact H2|].
    intros Hfresh. rewrite H3.
    + apply Hkeep. apply Hfresh. lia.
    + intros i Hi. apply Hfresh. lia.
Qed.

Lemma reaches_rows_issued (g : Globals) (w w2 : World) :
  reaches g w w2 -> rows_issued g w -> rows_issued g w2.
Proof.
  induction 1 as [w|sb db r res w w1 w2 Hstep Hrest IH]; intros Hinv; [exact Hinv|].
  apply IH. intros rows1 id Ht1 Hrow1.
  destruct (process_record_step _ _ _ _ _ _ _ Hstep) as (Hu & Hcase).
  assert (Hsame : tables w1 = tables w ->
            exists i, (i < uuid_drawn w1)%nat /\ uuid_source i = id).
  { intros Heq. rewrite Heq in Ht1. destruct (Hinv rows1 id Ht1 Hrow1) as (i & Hi & <-).
    exists i. split; [lia | reflexivity]. }
  destruct Hcase as [(_ & _ & Heq & _)|(_ & _ & [(_ & Heq & _)|(rows' & Ht' & _ & Heq)])];
    [exact (Hsame Heq) | exact (Hsame Heq) |].
  rewrite Heq, lookup_insert_eq in Ht1. injection Ht1 as <-.
  destruct (decide (uuid_source (uuid_drawn w) = id)) as [Hid|Hid].
  - exists (uuid_drawn w). split; [lia | exact Hid].
  - rewrite lookup_insert_ne in Hrow1 by exact Hid.
    destruct (Hinv rows' id Ht' Hrow1) as (i & Hi & <-).
    exists i. split; [lia | reflexivity].
Qed.

(** *** The metadata record *)

(** The items a loop sends: at most one per record, and one per record
    when no record raised. *)
Lemma for_each_put_items (g : Globals) (sb db : string) (rs : list EventRecord)
  (w w' : World) (res : Result unit) :
  for_each rs (process_record g sb db) w = (res, w') ->
  exists more,
    put_items (calls w') = put_items (calls w) ++ more /\
    (length more <= length rs)%nat /\
    (res = Ok tt -> length more = length rs).
Proof.
  revert w. induction rs as [|r rs IH]; intros w; cbn [for_each].
  - unfold ret. intros [= <- <-]. exists []. rewrite app_nil_r. repeat split. cbn. lia.
  - unfold bind. destruct (process_record g sb db r w) as [[[]|e] w1] eqn:E.
    + intros Hrest. destruct (IH _ Hrest) as (more & Hput & Hle & Heq).
      destruct (process_record_step _ _ _ _ _ _ _ E) as (_ & Hcase).
      destruct Hcase as [(_ & _ & _ & Hno)|(Hone & _)]; [contradiction|].
      exists ((table g, item_of_record sb db (key (object (s3 r))) w) :: more).
      rewrite Hput, Hone, <- app_assoc. split; [reflexivity|]. cbn [length].
      split; [lia|]. intros Hok. rewrite (Heq Hok). reflexivity.
    + intros [= <- <-].
      destruct (process_record_step _ _ _ _ _ _ _ E) as (_ & Hcase).
      destruct Hcase as [(Hnone & _)|(Hone & _)].
      * exists []. rewrite app_nil_r. split; [exact Hnone|]. cbn [length].
        split; [lia | discriminate].
      * exists [(table g, item_of_record sb db (key (object (s3 r))) w)].
        split; [exact Hone|]. cbn [length]. split; [lia | discriminate].
Qed.

(** C6, with its assumption on the generator made explicit.  Take an
    invocation and a record of its batch that is processed without
    raising, the records before it having been processed too.  Among the
    items the invocation sends to the metadata store, exactly one is the
    record's: it comes after one item for each earlier record, and it has
    the six attributes of the source's dictionary and no other (the
    identifier drawn for the record, the source key, the destination key,
    the instant read for the record in ISO format, and the two bucket
    names).  It becomes a row of the table under its identifier, next to
    the rows already there.  Whatever the outcome of the invocation and
    whatever the pipeline does afterwards, the row is not deleted; it is
    not replaced as long as the identifier is not drawn again, hence never
    when the generator does not repeat itself. *)
Theorem one_metadata_record_per_processed_record
  (g : Globals) (ev : S3Event) (sb db : string) (pre post : list EventRecord)
  (r : EventRecord) (w w1 w2 w' : World) (res : Result Response) :
  environ w !! "SOURCE_BUCKET" = Some sb ->
  environ w !! "DEST_BUCKET" = Some db ->
  Records ev = pre ++ r :: post ->
  processes_all g sb db pre w w1 ->
  process_record g sb db r w1 = (Ok tt, w2) ->
  lambda_handler g ev w = (res, w') ->
  let k := key (object (s3 r)) in
  let id := uuid_source (uuid_drawn w1) in
  let item : Item :=
    {[ "image_id" := id;
       "original_key" := k;
       "resized_key" := resized_key_of k;
       "upload_time" := isoformat (clock (clock_read w1));
       "source_bucket" := sb;
       "dest_bucket" := db ]} in
  dom item = {[ "image_id"; "original_key"; "resized_key"; "upload_time";
                "source_bucket"; "dest_bucket" ]} /\
  (exists before after,
     put_items (calls w') = put_items (calls w) ++ before ++ (table g, item) :: after /\
     length before = length pre /\
     (length after <= length post)%nat /\
     (res = Ok success_response -> length after = length post)) /\
  (exists rows,
     tables w1 !! table g = Some rows /\
     tables w2 = <[table g := <[id := item]> rows]> (tables w1)) /\
  forall w3, reaches g w' w3 ->
    exists rows3 item3,
      tables w3 !! table g = Some rows3 /\ rows3 !! id = Some item3 /\
      ((forall i, (uuid_drawn w2 <= i < uuid_drawn w3)%nat -> uuid_source i <> id) ->
       item3 = item) /\
      (Inj (=) (=) uuid_source -> item3 = item).
Proof.
  intros Hsb Hdb Hrec Hpre Hr Hrun k id item.
  assert (Hitem : item = item_of_record sb db k w1) by reflexivity.
  apply for_each_ok in Hpre.
  destruct (for_each_put_items _ _ _ _ _ _ _ Hpre) as (before & Hbefore & _ & Hlen).
  specialize (Hlen eq_refl).
  destruct (process_record_step _ _ _ _ _ _ _ Hr) as (Hu & Hcase).
  destruct Hcase as [(_ & _ & _ & Hno)|(Hput & _ & [(_ & _ & Hno)|(rows & Ht & _ & Heq)])];
    [contradiction | contradiction |].
  fold k in Hput, Heq. rewrite <- Hitem in Hput, Heq. fold id in Heq.
  rewrite (lambda_handler_unfold g ev w sb db Hsb Hdb), Hrec, for_each_app, Hpre in Hrun.
  cbn [for_each] in Hrun. unfold bind in Hrun. rewrite Hr in Hrun.
  destruct (for_each post (process_record g sb db) w2) as [res2 w''] eqn:Hpost.
  assert (Hw : w'' = w') by (destruct res2 as [[]|e]; congruence).
  subst w''.
  destruct (for_each_put_items _ _ _ _ _ _ _ Hpost) as (after & Hafter & Hle & Hall).
  pose proof (for_each_reaches _ _ _ _ _ _ _ Hpost) as Hreach.
  split.
  { unfold item. rewrite !dom_insert_L, dom_singleton_L. set_solver. }
  split.
  { exists before, after. rewrite Hafter, Hput, Hbefore, <- !app_assoc.
    split; [reflexivity|]. split; [exact Hlen|]. split; [exact Hle|].
    intros Hres. apply Hall. destruct res2 as [[]|e]; [reflexivity|].
    rewrite Hres in Hrun. discriminate. }
  split.
  { exists rows. split; [exact Ht | exact Heq]. }
  intros w3 Hlater.
  destruct (reaches_keeps_rows g w2 w3 (reaches_trans _ _ _ _ Hreach Hlater)
              (<[id := item]> rows) id item)
    as (rows3 & item3 & H1 & H2 & H3).
  { rewrite Heq. apply lookup_insert_eq. }
  { apply lookup_insert_eq. }
  exists rows3, item3. split; [exact H1|]. split; [exact H2|]. split; [exact H3|].
  intros Hinj. apply H3. intros i Hi Hcontra.
  apply Hinj in Hcontra. lia.
Qed.

(** *** Identifiers *)

(** C7, with its assumption on the generator made explicit.  As long as
    the generator has handed out no identifier twice, the identifiers of
    all the items the pipeline sends from a world on, within a batch or
    over any number of invocations, are pairwise distinct, and distinct
    from every identifier drawn before; the keys of the records play no
    part.  A record processed again therefore does not touch any row
    written before: its item goes under its own identifier and every row
    under an identifier drawn earlier stays as it is; when all the rows of
    the table carry identifiers drawn earlier, the table does not hold the
    new identifier yet and all its rows stay as they are. *)
Theorem identifiers_are_pairwise_distinct (g : Globals) (w0 w : World) :
  reaches g w0 w ->
  (no_repeat_before (uuid_drawn w) ->
   exists fresh,
     image_ids (calls w) = image_ids (calls w0) ++ fresh /\
     NoDup fresh /\
     forall i, (i < uuid_drawn w0)%nat -> uuid_source i ∉ fresh) /\
  (forall sb db r w',
     process_record g sb db r w = (Ok tt, w') ->
     no_repeat_before (uuid_drawn w') ->
     exists rows,
       tables w !! table g = Some rows /\
       tables w' !! table g
         = Some (<[uuid_source (uuid_drawn w)
                   := item_of_record sb db (key (object (s3 r))) w]> rows) /\
       (forall i item, (i < uuid_drawn w)%nat ->
          rows !! uuid_source i = Some item ->
          (<[uuid_source (uuid_drawn w)
             := item_of_record sb db (key (object (s3 r))) w]> rows) !! uuid_source i
          = Some item) /\
       (rows_issued g w0 ->
        rows !! uuid_source (uuid_drawn w) = None /\
        forall id item, rows !! id = Some item ->
          (<[uuid_source (uuid_drawn w)
             := item_of_record sb db (key (object (s3 r))) w]> rows) !! id = Some item)).
Proof.
  intros Hreach. split.
  - intros Hinj.
    destruct (reaches_draws g w0 w Hreach) as (Hmono & draws & Hids & Hsorted & Hin).
    rewrite Forall_forall in Hin.
    exists (uuid_source <$> draws). split; [exact Hids|]. split.
    + clear Hids. induction Hsorted as [|i draws Hsorted IH Hi]; cbn [fmap list_fmap].
      * constructor.
      * constructor.
        -- intros Hel. apply list_elem_of_fmap in Hel as (j & Hj & Hjin).
           rewrite Forall_forall in Hi. specialize (Hi j Hjin).
           pose proof (Hin i ltac:(left)) as Hi1.
           pose proof (Hin j ltac:(right; exact Hjin)) as Hj1.
           apply Hinj in Hj; lia.
        -- apply IH. intros j Hjin. apply Hin. right. exact Hjin.
    + intros i Hi Hel. apply list_elem_of_fmap in Hel as (j & Hj & Hjin).
      specialize (Hin j Hjin). apply Hinj in Hj; lia.
  - intros sb db r w' Hrun Hinj.
    destruct (process_record_step _ _ _ _ _ _ _ Hrun) as (Hu & Hcase).
    destruct Hcase as [(_ & _ & _ & Hno)|(_ & _ & [(_ & _ & Hno)|(rows & Ht & _ & Heq)])];
      [contradiction | contradiction |].
    exists rows. split; [exact Ht|]. split; [rewrite Heq; apply lookup_insert_eq|]. split.
    + intros i item Hi Hrow. rewrite lookup_insert_ne; [exact Hrow|].
      intros Hsame. apply Hinj in Hsame; lia.
    + intros Hinv.
      pose proof (reaches_rows_issued g w0 w Hreach Hinv) as Hinv'.
      assert (Hnew : rows !! uuid_source (uuid_drawn w) = None).
      { destruct (rows !! uuid_source (uuid_drawn w)) as [old|] eqn:E; [|reflexivity].
        destruct (Hinv' rows _ Ht ltac:(rewrite E; eauto)) as (i & Hi & Heqi).
        apply Hinj in Heqi; lia. }
      split; [exact Hnew|].
      intros id item Hrow. rewrite lookup_insert_ne; [exact Hrow|].
      intros <-. rewrite Hnew in Hrow. discriminate.
Qed.

(** *** Upload times *)




(** *** Configuration *)

(** The handler reads [SOURCE_BUCKET], then [DEST_BUCKET], before it looks
    at the event: when one of them is not set it raises [KeyError] with the
    name of the first one missing and leaves the world as it is, whatever
    the batch holds. *)
Theorem missing_variable_raises_before_any_request
  (g : Globals) (ev : S3Event) (w : World) :
  (environ w !! "SOURCE_BUCKET" = None ->
   lambda_handler g ev w = (Raise (KeyError "SOURCE_BUCKET"), w)) /\
  (forall sb, environ w !! "SOURCE_BUCKET" = Some sb ->
     environ w !! "DEST_BUCKET" = None ->
     lambda_handler g ev w = (Raise (KeyError "DEST_BUCKET"), w)).
Proof.
  split.
  - intros Hsb. unfold lambda_handler, bind, os_environ. rewrite Hsb. reflexivity.
  - intros sb Hsb Hdb. unfold lambda_handler, bind, os_environ.
    rewrite Hsb, Hdb. reflexivity.
Qed.

(** *** Outcomes of a batch *)

Lemma process_record_environ (g : Globals) (sb db : string) (r : EventRecord)
  (res : Result unit) (w w' : World) :
  process_record g sb db r w = (res, w') -> environ w' = environ w.
Proof.
  rewrite process_record_unfold. cbv zeta.
  destruct (fetch_and_shrink sb _ w) as [out|e]; [|intros [= _ <-]; reflexivity].
  destruct (buckets w !! db) as [dest|]; [|intros [= _ <-]; reflexivity].
  destruct (tables w !! table g) as [rows|]; intros [= _ <-]; reflexivity.
Qed.

Lemma reaches_environ (g : Globals) (w w' : World) :
  reaches g w w' -> environ w' = environ w.
Proof.
  induction 1 as [|sb db r res w w1 w2 Hstep _ IH]; [reflexivity|].
  rewrite IH. exact (process_record_environ _ _ _ _ _ _ _ Hstep).
Qed.

(** A loop either runs through, or stops at its first record that
    raises. *)
Lemma for_each_outcome (g : Globals) (sb db : string) (rs : list EventRecord)
  (res : Result unit) (w w' : World) :
  for_each rs (process_record g sb db) w = (res, w') ->
  (res = Ok tt /\ processes_all g sb db rs w w') \/
  (exists e pre r post w1,
     res = Raise e /\ rs = pre ++ r :: post /\
     processes_all g sb db pre w w1 /\
     process_record g sb db r w1 = (Raise e, w')).
Proof.
  revert w. induction rs as [|r rs IH]; intros w; cbn [for_each].
  - unfold ret. intros [= <- <-]. left. split; [reflexivity | constructor].
  - unfold bind. destruct (process_record g sb db r w) as [[[]|e] w1] eqn:E.
    + intros H. destruct (IH _ H) as [[-> Hall]|(e & pre & r' & post & w2 & -> & -> & Hpre & Hr)].
      * left. split; [reflexivity|]. econstructor; [exact E | exact Hall].
      * right. exists e, (r :: pre), r', post, w2.
        split; [reflexivity|]. split; [reflexivity|].
        split; [econstructor; [exact E | exact Hpre] | exact Hr].
    + intros [= <- <-]. right. exists e, [], r, rs, w.
      split; [reflexivity|]. split; [reflexivity|]. split; [constructor | exact E].
Qed.

(** With its two variables set, the handler has two outcomes and no
    third: it returns the payload after processing every record, or it
    raises the exception of the first record that raised, in the world
    that record left. *)
Theorem handler_returns_or_raises_at_first_failure
  (g : Globals) (ev : S3Event) (sb db : string) (w w' : World)
  (res : Result Response) :
  environ w !! "SOURCE_BUCKET" = Some sb ->
  environ w !! "DEST_BUCKET" = Some db ->
  lambda_handler g ev w = (res, w') ->
  (res = Ok success_response /\ processes_all g sb db (Records ev) w w') \/
  (exists e pre r post w1,
     res = Raise e /\ Records ev = pre ++ r :: post /\
     processes_all g sb db pre w w1 /\
     process_record g sb db r w1 = (Raise e, w')).
Proof.
  intros Hsb Hdb. rewrite (lambda_handler_unfold g ev w sb db Hsb Hdb).
  destruct (for_each _ _ w) as [[[]|e] w1] eqn:E; intros [= <- <-];
    destruct (for_each_outcome _ _ _ _ _ _ _ E)
      as [[Hres Hall]|(e' & pre & r & post & w2 & Hres & Hrec & Hpre & Hr)];
    try discriminate.
  - left. split; [reflexivity | exact Hall].
  - injection Hres as <-. right. exists e, pre, r, post, w2.
    repeat (split; [first [reflexivity | assumption]|]). exact Hr.
Qed.

Lemma for_each_environ (g : Globals) (sb db : string) (rs : list EventRecord)
  (res : Result unit) (w w' : World) :
  for_each rs (process_record g sb db) w = (res, w') -> environ w' = environ w.
Proof. intros H. apply (reaches_environ g). eapply for_each_reaches. exact H. Qed.

(** One batch made of two lists of records behaves as two invocations,
    the second started only if the first returned: the records of the
    second part are processed in the world the first part left, and a
    failure in the first part keeps the second from running. *)
Theorem batch_is_processed_part_after_part
  (g : Globals) (xs ys : list EventRecord) (sb db : string) (w : World) :
  environ w !! "SOURCE_BUCKET" = Some sb ->
  environ w !! "DEST_BUCKET" = Some db ->
  lambda_handler g {| Records := xs ++ ys |} w =
  match lambda_handler g {| Records := xs |} w with
  | (Ok _, w1) => lambda_handler g {| Records := ys |} w1
  | (Raise e, w1) => (Raise e, w1)
  end.
Proof.
  intros Hsb Hdb.
  rewrite (lambda_handler_unfold g {| Records := xs ++ ys |} w sb db Hsb Hdb).
  rewrite (lambda_handler_unfold g {| Records := xs |} w sb db Hsb Hdb).
  cbn [Records]. rewrite for_each_app.
  destruct (for_each xs _ w) as [[[]|e] w1] eqn:E; [|reflexivity].
  pose proof (for_each_environ _ _ _ _ _ _ _ E) as Henv.
  rewrite (lambda_handler_unfold g {| Records := ys |} w1 sb db)
    by (rewrite Henv; assumption).
  reflexivity.
Qed.

(** *** What a record leaves alone *)

Lemma object_after_upload (bs : gmap string (gmap string S3Object))
  (db rk : string) (dest : gmap string S3Object) (o : S3Object) (b k : string) :
  bs !! db = Some dest ->
  (<[db := <[rk := o]> dest]> bs !! b) ≫= (.!! k)
  = if decide (b = db /\ k = rk) then Some o else (bs !! b) ≫= (.!! k).
Proof.
  intros Hdest. destruct (decide (b = db)) as [->|Hb].
  - rewrite lookup_insert_eq, Hdest. cbn. destruct (decide (k = rk)) as [->|Hk].
    + rewrite lookup_insert_eq. rewrite decide_True by (split; reflexivity). reflexivity.
    + rewrite lookup_insert_ne by (intros E; apply Hk; symmetry; exact E).
      rewrite decide_False by (intros [_ E]; contradiction). reflexivity.
  - rewrite lookup_insert_ne by (intros E; apply Hb; symmetry; exact E).
    rewrite decide_False by (intros [E _]; contradiction). reflexivity.
Qed.

(** The buckets after one loop body: as before, or with the derived object
    put under its key in the destination bucket. *)
Lemma process_record_buckets (g : Globals) (sb db : string) (r : EventRecord)
  (res : Result unit) (w w1 : World) :
  process_record g sb db r w = (res, w1) ->
  buckets w1 = buckets w \/
  exists out dest,
    fetch_and_shrink sb (key (object (s3 r))) w = Ok out /\
    buckets w !! db = Some dest /\
    buckets w1
    = <[db := <[resized_key_of (key (object (s3 r)))
                := mkS3Object (Encoded "JPEG" out) "image/jpeg"]> dest]> (buckets w).
Proof.
  rewrite process_record_unfold. cbv zeta.
  destruct (fetch_and_shrink sb _ w) as [out|e]; [|intros [= _ <-]; left; reflexivity].
  destruct (buckets w !! db) as [dest|] eqn:Hd; [|intros [= _ <-]; left; reflexivity].
  destruct (tables w !! table g) as [rows|]; intros [= _ <-]; right;
    exists out, dest; repeat split.
Qed.

Lemma process_record_frame (g : Globals) (sb db : string) (r : EventRecord)
  (res : Result unit) (w w1 : World) :
  process_record g sb db r w = (res, w1) ->
  (forall b k, (b <> db \/ k <> resized_key_of (key (object (s3 r)))) ->
     object_at w1 b k = object_at w b k) /\
  (forall b k, is_Some (object_at w b k) -> is_Some (object_at w1 b k)) /\
  (forall t, t <> table g -> tables w1 !! t = tables w !! t) /\
  dom (buckets w1) = dom (buckets w) /\
  dom (tables w1) = dom (tables w).
Proof.
  intros Hrun.
  assert (Htables : (forall t, t <> table g -> tables w1 !! t = tables w !! t) /\
                    dom (tables w1) = dom (tables w)).
  { destruct (process_record_step _ _ _ _ _ _ _ Hrun) as (_ & Hcase).
    destruct Hcase as [(_ & _ & Heq & _)|(_ & _ & [(_ & Heq & _)|(rows & Ht & _ & Heq)])];
      rewrite Heq; try (split; [intros; reflexivity | reflexivity]).
    split.
    - intros t Hne. apply lookup_insert_ne. intros E. apply Hne. symmetry. exact E.
    - rewrite dom_insert_L. apply (elem_of_dom_2 (tables w)) in Ht.
      apply subseteq_union_1_L, singleton_subseteq_l. exact Ht. }
  destruct Htables as [Hother Hdomt].
  destruct (process_record_buckets _ _ _ _ _ _ _ Hrun)
    as [Heq|(out & dest & _ & Hdest & Heq)]; unfold object_at; rewrite Heq.
  - repeat split; auto.
  - split; [|split; [|split; [exact Hother|split; [|exact Hdomt]]]].
    + intros b k Hne. rewrite (object_after_upload _ _ _ _ _ _ _ Hdest).
      rewrite decide_False; [reflexivity|]. intros [-> ->]. destruct Hne; contradiction.
    + intros b k Hsome. rewrite (object_after_upload _ _ _ _ _ _ _ Hdest).
      destruct (decide _); [eauto | exact Hsome].
    + rewrite dom_insert_L. apply (elem_of_dom_2 (buckets w)) in Hdest.
      apply subseteq_union_1_L, singleton_subseteq_l. exact Hdest.
Qed.

(** Whatever happens to its records, an invocation changes no object but
    those under the destination keys of its records in the destination
    bucket, no table but the metadata table, and not the environment; it
    creates and removes no bucket and no table. *)
Theorem handler_writes_only_destination_keys
  (g : Globals) (ev : S3Event) (sb db : string) (w w' : World)
  (res : Result Response) :
  environ w !! "SOURCE_BUCKET" = Some sb ->
  environ w !! "DEST_BUCKET" = Some db ->
  lambda_handler g ev w = (res, w') ->
  (forall b k,
     (b <> db \/
      k ∉ (fun r => resized_key_of (key (object (s3 r)))) <$> Records ev) ->
     object_at w' b k = object_at w b k) /\
  (forall t, t <> table g -> tables w' !! t = tables w !! t) /\
  environ w' = environ w /\
  dom (buckets w') = dom (buckets w) /\
  dom (tables w') = dom (tables w).
Proof.
  intros Hsb Hdb. rewrite (lambda_handler_unfold g ev w sb db Hsb Hdb).
  assert (Hloop : forall rs res0 w0 w1,
            for_each rs (process_record g sb db) w0 = (res0, w1) ->
            (forall b k,
               (b <> db \/
                k ∉ (fun r => resized_key_of (key (object (s3 r)))) <$> rs) ->
               object_at w1 b k = object_at w0 b k) /\
            (forall t, t <> table g -> tables w1 !! t = tables w0 !! t) /\
            environ w1 = environ w0 /\
            dom (buckets w1) = dom (buckets w0) /\
            dom (tables w1) = dom (tables w0)).
  { induction rs as [|r rs IH]; intros res0 w0 w1; cbn [for_each].
    - unfold ret. intros [= _ <-]. repeat split.
    - unfold bind. destruct (process_record g sb db r w0) as [[[]|e] w2] eqn:E.
      + intros H. destruct (IH _ _ _ H) as (Ho & Ht & He & Hb & Hd).
        destruct (process_record_frame _ _ _ _ _ _ _ E) as (Ho' & _ & Ht' & Hb' & Hd').
        pose proof (process_record_environ _ _ _ _ _ _ _ E) as He'.
        split; [|split; [|split; [congruence|split; congruence]]].
        * intros b k Hne. rewrite Ho, Ho'; [reflexivity| |].
          -- destruct Hne as [Hne|Hne]; [left; exact Hne|].
             right. intros ->. apply Hne. rewrite fmap_cons. apply list_elem_of_here.
          -- destruct Hne as [Hne|Hne]; [left; exact Hne|].
             right. intros Hin. apply Hne. rewrite fmap_cons.
             apply list_elem_of_further, Hin.
        * intros t Hne. rewrite Ht, Ht' by exact Hne. reflexivity.
      + intros [= _ <-].
        destruct (process_record_frame _ _ _ _ _ _ _ E) as (Ho' & _ & Ht' & Hb' & Hd').
        pose proof (process_record_environ _ _ _ _ _ _ _ E) as He'.
        split; [|split; [exact Ht'|split; [exact He'|split; assumption]]].
        intros b k Hne. apply Ho'.
        destruct Hne as [Hne|Hne]; [left; exact Hne|].
        right. intros ->. apply Hne. rewrite fmap_cons. apply list_elem_of_here. }
  destruct (for_each _ _ w) as [[[]|e] w1] eqn:E; intros [= _ <-];
    exact (Hloop _ _ _ _ E).
Qed.

(** *** What a failed record leaves behind *)

(** A record that raises writes no metadata row, and it has stopped at
    one of two stages.  Either it has sent no item: then it has not read
    the clock and has left every bucket as it was.  Or the item is the
    last request it sent, after the download and the upload: then the
    derived object has been uploaded and stays in the destination bucket
    without a row to name it. *)
Theorem failed_record_writes_no_row
  (g : Globals) (sb db : string) (r : EventRecord) (e : exn) (w w' : World) :
  process_record g sb db r w = (Raise e, w') ->
  let k := key (object (s3 r)) in
  tables w' = tables w /\
  exists sent,
    calls w' = calls w ++ sent /\
    ((put_items sent = [] /\
      buckets w' = buckets w /\ clock_read w' = clock_read w) \/
     (exists out,
        fetch_and_shrink sb k w = Ok out /\
        sent = [GetObject sb k;
                PutObject db (resized_key_of k) (Encoded "JPEG" out) "image/jpeg";
                PutItem (table g) (item_of_record sb db k w)] /\
        clock_read w' = S (clock_read w) /\
        object_at w' db (resized_key_of k)
        = Some (mkS3Object (Encoded "JPEG" out) "image/jpeg"))).
Proof.
  intros Hrun k. subst k. rewrite process_record_unfold in Hrun. cbv zeta in Hrun.
  destruct (fetch_and_shrink sb _ w) as [out|e1] eqn:Hfetch.
  - destruct (buckets w !! db) as [dest|] eqn:Hdest.
    + destruct (tables w !! table g) as [rows|] eqn:Ht; [discriminate|].
      injection Hrun as <- <-. split; [reflexivity|].
      eexists. split; [reflexivity|]. right. exists out.
      split; [reflexivity|]. split; [reflexivity|]. split; [reflexivity|].
      unfold object_at. cbn [world_after_refused_item buckets].
      rewrite lookup_insert_eq. cbn. apply lookup_insert_eq.
    + injection Hrun as <- <-. split; [reflexivity|].
      eexists. split; [reflexivity|]. left. repeat split.
  - injection Hrun as <- <-. split; [reflexivity|].
    eexists. split; [reflexivity|]. left. repeat split.
Qed.

(** *** What the pipeline never does *)

Lemma resized_key_has_prefix (k : string) :
  String.prefix "resized/" (resized_key_of k) = true.
Proof.
  unfold resized_key_of. change (String.prefix EmptyString (basename k) = true).
  destruct (basename k); reflexivity.
Qed.

(** Whatever the pipeline goes on to do, an object that exists stays under
    its key (the same or a derived object put in its place), an object
    whose key does not start with [resized/] stays as it is, and no bucket
    and no table appears or disappears. *)
Theorem pipeline_never_deletes_objects (g : Globals) (w w2 : World) :
  reaches g w w2 ->
  (forall b k, is_Some (object_at w b k) -> is_Some (object_at w2 b k)) /\
  (forall b k, String.prefix "resized/" k = false ->
     object_at w2 b k = object_at w b k) /\
  dom (buckets w2) = dom (buckets w) /\
  dom (tables w2) = dom (tables w).
Proof.
  induction 1 as [w|sb db r res w w1 w2 Hstep _ (IH1 & IH2 & IH3 & IH4)].
  - repeat split; auto.
  - destruct (process_record_frame _ _ _ _ _ _ _ Hstep) as (Ho & Hkeep & _ & Hb & Ht).
    split; [|split; [|split; congruence]].
    + intros b k Hsome. apply IH1, Hkeep, Hsome.
    + intros b k Hpre. rewrite (IH2 b k Hpre). apply Ho. right.
      intros ->. rewrite resized_key_has_prefix in Hpre. discriminate.
Qed.

(** *** Destination keys *)

Lemma basename_is_suffix (p : string) : exists d, p = d +:+ basename p.
Proof.
  destruct (has_sep p) eqn:H.
  - destruct (split_at_last_sep p H) as (d & n & -> & Hn).
    rewrite (basename_after_sep d n Hn). exists (d +:+ String sep EmptyString).
    rewrite append_snoc. reflexivity.
  - rewrite (basename_no_sep p H). exists EmptyString. reflexivity.
Qed.

(** Every destination key is [resized], one separator, and a name
    without separator that ends the source key: derived objects sit
    directly under [resized/], whatever the depth of the source.  A source
    key that ends with the separator gives the bare key [resized/], and
    the keys that are their own destination key are the keys directly
    under [resized/]. *)
Theorem destination_keys_are_flat (k : string) :
  segments (resized_key_of k) = ["resized"; basename k] /\
  has_sep (basename k) = false /\
  (exists d, k = d +:+ basename k) /\
  (forall d, k = d +:+ "/" -> resized_key_of k = "resized/") /\
  (resized_key_of k = k <-> exists n, k = "resized/" +:+ n /\ has_sep n = false).
Proof.
  pose proof (basename_has_no_sep k) as Hno.
  split; [|split; [exact Hno|split; [apply basename_is_suffix|split]]].
  - unfold resized_key_of, segments.
    change ("resized" :: segments_from EmptyString (basename k) = ["resized"; basename k]).
    rewrite (segments_from_no_sep _ _ Hno). reflexivity.
  - intros d ->. unfold resized_key_of.
    change (d +:+ "/") with (d +:+ String sep EmptyString).
    rewrite (basename_after_sep d EmptyString eq_refl). reflexivity.
  - split.
    + intros Hfix. exists (basename k). split; [|exact Hno].
      rewrite <- Hfix at 1. reflexivity.
    + intros (n & -> & Hn). unfold resized_key_of.
      change ("resized/" +:+ n) with ("resized" +:+ String sep n) at 1.
      rewrite (basename_after_sep "resized" n Hn). reflexivity.
Qed.

(** The path of a record that does not raise, with the read steps taken
    together. *)
Lemma process_record_ok_fetch (g : Globals) (sb db : string) (r : EventRecord)
  (w w' : World) :
  process_record g sb db r w = (Ok tt, w') ->
  exists out dest rows,
    fetch_and_shrink sb (key (object (s3 r))) w = Ok out /\
    buckets w !! db = Some dest /\
    tables w !! table g = Some rows /\
    w' = world_after_record g sb db (key (object (s3 r))) out dest rows w.
Proof.
  rewrite process_record_unfold. cbv zeta.
  destruct (fetch_and_shrink sb _ w) as [out|e]; [|discriminate].
  destruct (buckets w !! db) as [dest|]; [|discriminate].
  destruct (tables w !! table g) as [rows|]; [|discriminate].
  intros [= <-]. exists out, dest, rows. repeat split.
Qed.

(** Two records whose keys end in the same name are uploaded under one
    destination key: after both, the destination bucket holds what it held
    before and, under that key, the derived object of the second record
    only. *)
Theorem same_name_sources_share_one_destination
  (g : Globals) (sb db : string) (r1 r2 : EventRecord) (w w' : World)
  (dest : gmap string S3Object) :
  basename (key (object (s3 r1))) = basename (key (object (s3 r2))) ->
  buckets w !! db = Some dest ->
  processes_all g sb db [r1; r2] w w' ->
  exists w1 out2,
    process_record g sb db r1 w = (Ok tt, w1) /\
    fetch_and_shrink sb (key (object (s3 r2))) w1 = Ok out2 /\
    buckets w' !! db
    = Some (<[resized_key_of (key (object (s3 r2)))
              := mkS3Object (Encoded "JPEG" out2) "image/jpeg"]> dest).
Proof.
  intros Hname Hdest Hall.
  inversion Hall as [|? ? ? w1 ? Hr1 Hrest]; subst.
  inversion Hrest as [|? ? ? w2 ? Hr2 Hnil]; subst.
  inversion Hnil; subst.
  exists w1.
  destruct (process_record_ok_fetch _ _ _ _ _ _ Hr1)
    as (out1 & dest1 & rows1 & _ & Hd1 & _ & Hw1).
  rewrite Hdest in Hd1. injection Hd1 as <-.
  destruct (process_record_ok_fetch _ _ _ _ _ _ Hr2)
    as (out2 & dest2 & rows2 & Hf2 & Hd2 & _ & Hw2).
  exists out2. split; [exact Hr1|]. split; [exact Hf2|].
  rewrite Hw1 in Hd2. cbn [world_after_record buckets] in Hd2.
  rewrite lookup_insert_eq in Hd2. injection Hd2 as <-.
  rewrite Hw2. cbn [world_after_record buckets]. rewrite lookup_insert_eq.
  f_equal. unfold resized_key_of. rewrite Hname. apply insert_insert_eq.
Qed.

(** *** Accounting for a batch *)

(** A batch of [n] records processed without raising draws [n]
    identifiers, reads the clock [n] times and sends [3 n] requests: the
    downloads of the source keys from the source bucket in the order of the
    records, the uploads of the destination keys to the destination bucket
    as [image/jpeg] in the same order, and one item per record to the
    metadata table, the i-th item with the i-th identifier drawn and the
    i-th instant read since the batch began. *)
Theorem batch_requests_follow_the_records
  (g : Globals) (sb db : string) (rs : list EventRecord) (w w' : World) :
  processes_all g sb db rs w w' ->
  uuid_drawn w' = (uuid_drawn w + length rs)%nat /\
  clock_read w' = (clock_read w + length rs)%nat /\
  exists sent,
    calls w' = calls w ++ sent /\
    length sent = (3 * length rs)%nat /\
    downloads sent = (fun r => (sb, key (object (s3 r)))) <$> rs /\
    uploads_sent sent
    = (fun r => (db, resized_key_of (key (object (s3 r))), "image/jpeg")) <$> rs /\
    (put_items sent).*1 = replicate (length rs) (table g) /\
    image_ids sent = uuid_source <$> seq (uuid_drawn w) (length rs) /\
    upload_times sent
    = (fun i => isoformat (clock i)) <$> seq (clock_read w) (length rs).
Proof.
  induction 1 as [w|r rs w w1 w2 Hr _ (IHu & IHc & sent & Hcalls & Hlen & Hd & Hu & Ht & Hi & Htimes)].
  - split; [cbn; lia|]. split; [cbn; lia|]. exists []. rewrite app_nil_r. repeat split.
  - destruct (process_record_ok_fetch _ _ _ _ _ _ Hr)
      as (out & dest & rows & _ & _ & _ & Hw1).
    rewrite Hw1 in IHu, IHc, Hcalls, Hi, Htimes.
    cbn [world_after_record uuid_drawn clock_read calls] in IHu, IHc, Hcalls, Hi, Htimes.
    split; [cbn [length]; lia|]. split; [cbn [length]; lia|].
    eexists. split; [rewrite Hcalls, <- app_assoc; reflexivity|].
    split; [rewrite length_app, Hlen; cbn [length]; lia|].
    unfold downloads, uploads_sent, image_ids, upload_times, put_items in *.
    rewrite !omap_app, !fmap_app, Hd, Hu, Ht, Hi, Htimes.
    cbn [length seq replicate]. repeat split.
Qed.

(** With a generator that never repeats itself and a table whose rows
    carry identifiers drawn earlier, a batch of [n] records processed
    without raising adds exactly [n] rows to the metadata table and leaves
    every earlier row as it was. *)
Theorem table_gains_one_row_per_record
  (g : Globals) (sb db : string) (rs : list EventRecord) (w w' : World)
  (rows : gmap string Item) :
  Inj (=) (=) uuid_source ->
  rows_issued g w ->
  tables w !! table g = Some rows ->
  processes_all g sb db rs w w' ->
  exists rows',
    tables w' !! table g = Some rows' /\
    size rows' = (size rows + length rs)%nat /\
    rows ⊆ rows'.
Proof.
  intros Hinj Hinv Ht Hall. revert rows Hinv Ht.
  induction Hall as [w|r rs w w1 w2 Hr _ IH]; intros rows Hinv Ht.
  - exists rows. split; [exact Ht|]. split; [cbn; lia | reflexivity].
  - assert (Hinv1 : rows_issued g w1).
    { apply (reaches_rows_issued g w w1); [|exact Hinv].
      eapply reaches_step; [exact Hr | constructor]. }
    destruct (process_record_step _ _ _ _ _ _ _ Hr) as (_ & Hcase).
    destruct Hcase as [(_ & _ & _ & Hno)|(_ & _ & [(_ & _ & Hno)|(rows0 & Ht0 & _ & Heq)])];
      [contradiction | contradiction |].
    rewrite Ht in Ht0. injection Ht0 as <-.
    assert (Hnew : rows !! uuid_source (uuid_drawn w) = None).
    { destruct (rows !! uuid_source (uuid_drawn w)) as [old|] eqn:E; [|reflexivity].
      destruct (Hinv rows _ Ht ltac:(rewrite E; eauto)) as (i & Hi & Heqi).
      apply Hinj in Heqi. lia. }
    destruct (IH _ Hinv1 ltac:(rewrite Heq; apply lookup_insert_eq))
      as (rows' & Ht' & Hsize & Hsub).
    exists rows'. split; [exact Ht'|]. split.
    + rewrite Hsize, (map_size_insert_None _ _ _ Hnew). cbn [length]. lia.
    + etransitivity; [|exact Hsub]. apply insert_subseteq, Hnew.
Qed.

(** *** Sources that cannot be read *)

(** A record whose source bucket or key does not exist, or whose object no
    decoder recognises, raises the store's [NoSuchBucket] or [NoSuchKey]
    error or [UnidentifiedImageError]; the download is the only request
    sent, and no bucket and no table has changed. *)
Theorem unreadable_source_fails_before_any_write
  (g : Globals) (sb db : string) (r : EventRecord) (w : World) :
  let k := key (object (s3 r)) in
  let stopped (e : exn) :=
    exists w',
      process_record g sb db r w = (Raise e, w') /\
      calls w' = calls w ++ [GetObject sb k] /\
      buckets w' = buckets w /\ tables w' = tables w in
  (buckets w !! sb = None -> stopped (ClientError "NoSuchBucket" "GetObject")) /\
  (forall objects, buckets w !! sb = Some objects -> objects !! k = None ->
     stopped (ClientError "NoSuchKey" "GetObject")) /\
  (forall objects obj raw,
     buckets w !! sb = Some objects -> objects !! k = Some obj ->
     Body obj = Unrecognised raw ->
     stopped UnidentifiedImageError).
Proof.
  intros k stopped. subst k stopped. cbv beta.
  split; [|split].
  - intros Hsb. eexists. rewrite process_record_unfold. cbv zeta.
    unfold fetch_and_shrink. rewrite Hsb. repeat split.
  - intros objects Hsb Hk. eexists. rewrite process_record_unfold. cbv zeta.
    unfold fetch_and_shrink. rewrite Hsb, Hk. repeat split.
  - intros objects obj raw Hsb Hk Hbody. eexists. rewrite process_record_unfold.
    cbv zeta. unfold fetch_and_shrink. rewrite Hsb, Hk, Hbody. repeat split.
Qed.

(** *** Rows and the objects they name *)

Lemma reaches_keeps_derived (g : Globals) (w w2 : World) :
  reaches g w w2 ->
  forall b k im,
    object_at w b k = Some (mkS3Object (Encoded "JPEG" im) "image/jpeg") ->
    exists im2,
      object_at w2 b k = Some (mkS3Object (Encoded "JPEG" im2) "image/jpeg").
Proof.
  induction 1 as [w|sb db r res w w1 w2 Hstep _ IH]; intros b k im Hat.
  - exists im. exact Hat.
  - destruct (process_record_buckets _ _ _ _ _ _ _ Hstep)
      as [Heq|(out & dest & _ & Hdest & Heq)].
    + apply (IH b k im). unfold object_at in *. rewrite Heq. exact Hat.
    + unfold object_at in Hat.
      destruct (decide (b = db /\ k = resized_key_of (key (object (s3 r))))) as [Hd|Hd].
      * apply (IH b k out). unfold object_at.
        rewrite Heq, (object_after_upload _ _ _ _ _ _ _ Hdest).
        rewrite decide_True by exact Hd. reflexivity.
      * apply (IH b k im). unfold object_at.
        rewrite Heq, (object_after_upload _ _ _ _ _ _ _ Hdest).
        rewrite decide_False by exact Hd. exact Hat.
Qed.

(** The upload comes before the metadata write and nothing is deleted
    later: with a generator that never repeats itself, the row of a
    processed record stays in the table as written, and the key and the
    bucket it records keep naming a JPEG object, whatever the pipeline
    does afterwards. *)
Theorem rows_never_dangle
  (g : Globals) (sb db : string) (r : EventRecord) (w w' w2 : World) :
  Inj (=) (=) uuid_source ->
  process_record g sb db r w = (Ok tt, w') ->
  reaches g w' w2 ->
  exists rows2 item im,
    tables w2 !! table g = Some rows2 /\
    rows2 !! uuid_source (uuid_drawn w) = Some item /\
    item !! "dest_bucket" = Some db /\
    item !! "resized_key" = Some (resized_key_of (key (object (s3 r)))) /\
    object_at w2 db (resized_key_of (key (object (s3 r))))
    = Some (mkS3Object (Encoded "JPEG" im) "image/jpeg").
Proof.
  intros Hinj Hrun Hreach.
  destruct (process_record_ok_fetch _ _ _ _ _ _ Hrun)
    as (out & dest & rows & _ & _ & _ & Hw').
  destruct (reaches_keeps_rows g w' w2 Hreach
              (<[uuid_source (uuid_drawn w)
                 := item_of_record sb db (key (object (s3 r))) w]> rows)
              (uuid_source (uuid_drawn w))
              (item_of_record sb db (key (object (s3 r))) w))
    as (rows2 & item2 & Ht2 & Hrow2 & Hsame).
  { rewrite Hw'. cbn [world_after_record tables]. apply lookup_insert_eq. }
  { apply lookup_insert_eq. }
  rewrite Hsame in Hrow2.
  2:{ intros i Hi Heq. apply Hinj in Heq. rewrite Hw' in Hi.
      cbn [world_after_record uuid_drawn] in Hi. lia. }
  destruct (reaches_keeps_derived g w' w2 Hreach db
              (resized_key_of (key (object (s3 r)))) out) as (im & Him).
  { rewrite Hw'. unfold object_at. cbn [world_after_record buckets].
    rewrite lookup_insert_eq. cbn. apply lookup_insert_eq. }
  exists rows2, (item_of_record sb db (key (object (s3 r))) w), im.
  split; [exact Ht2|]. split; [exact Hrow2|]. split; [reflexivity|].
  split; [reflexivity | exact Him].
Qed.

End Pipeline.

(** ** A deployment to run the pipeline in *)

Section Deployment.

Import posixpath PIL pydatetime.

(** A generator that counts and a clock that advances by a microsecond at
    every reading (and stands still at the end of its second). *)
Definition sample_uuid (n : nat) : string := pretty n.

Definition sample_clock (n : nat) : datetime :=
  mkDatetime 2024 5 17 9 30 0 (Z.min (Z.of_nat n) 999999).

(** A clock that is set back by a second after its first reading, as a
    wall clock may be. *)
Definition stepped_clock (n : nat) : datetime :=
  match n with
  | O => mkDatetime 2024 5 17 9 30 1 0
  | S _ => mkDatetime 2024 5 17 9 30 0 0
  end.

Definition cat_png : S3Object :=
  mkS3Object (Encoded "PNG" (mkImage "RGB" 1000 500)) "image/png".

Definition dot_png : S3Object :=
  mkS3Object (Encoded "PNG" (mkImage "RGB" 64 48)) "image/png".

Definition logo_png : S3Object :=
  mkS3Object (Encoded "PNG" (mkImage "RGBA" 640 480)) "image/png".

Definition uploads : gmap string S3Object :=
  {[ "photos/cat.png" := cat_png;
     "icons/small/dot.png" := dot_png;
     "art/logo.png" := logo_png;
     "notes/readme.txt" := mkS3Object (Unrecognised "plain text") "text/plain" ]}.

Definition sample_environ : gmap string string :=
  {[ "SOURCE_BUCKET" := "uploads"; "DEST_BUCKET" := "thumbs"; "DDB_TABLE" := "images" ]}.

(** The world before the first invocation. *)
Definition fresh_world : World :=
  mkWorld sample_environ {[ "uploads" := uploads; "thumbs" := ∅ ]} {[ "images" := ∅ ]}
    0 0 [].

(** The same deployment with the metadata table missing. *)
Definition tableless_world : World :=
  mkWorld sample_environ {[ "uploads" := uploads; "thumbs" := ∅ ]} ∅ 0 0 [].

Definition sample_globals : Globals := {| table := "images" |}.

Definition run_record (k : string) (w : World) : Result unit * World :=
  process_record sample_uuid sample_clock sample_globals "uploads" "thumbs"
    (record_of_key k) w.

Definition run_batch (ks : list string) (w : World) : Result Response * World :=
  lambda_handler sample_uuid sample_clock sample_globals
    {| Records := record_of_key <$> ks |} w.

(** The attribute [a] of the row [id] of the table [images]. *)
Definition row_attribute (w : World) (id a : string) : option string :=
  ((tables w !! "images") ≫= (.!! id)) ≫= (.!! a).

(** The raster stored under a key of the bucket [thumbs]. *)
Definition thumb (w : World) (k : string) : option S3Object :=
  (buckets w !! "thumbs") ≫= (.!! k).

(** A batch whose second record is not an image. *)
Definition mixed_batch : S3Event :=
  {| Records := record_of_key <$> ["photos/cat.png"; "notes/readme.txt"; "icons/small/dot.png"] |}.

Definition after_cat : World := (run_record "photos/cat.png" fresh_world).2.

Definition after_readme : World := (run_record "notes/readme.txt" after_cat).2.

(** A batch of two images. *)
Definition two_images : S3Event :=
  {| Records := record_of_key <$> ["photos/cat.png"; "icons/small/dot.png"] |}.

Definition after_two_images : World := (run_record "icons/small/dot.png" after_cat).2.

(** Two invocations, the second with the key of the first again. *)
Definition two_invocations : list S3Event :=
  [ two_images; {| Records := record_of_key <$> ["photos/cat.png"] |} ].

Definition after_two_invocations : World :=
  (invoke_all sample_uuid sample_clock sample_globals two_invocations fresh_world).2.

(** A deployment whose variables are not set. *)
Definition unconfigured_world : World :=
  mkWorld ∅ {[ "uploads" := uploads; "thumbs" := ∅ ]} {[ "images" := ∅ ]} 0 0 [].

(** Two albums with a picture of the same name, and a deployment over
    them. *)
Definition albums : gmap string S3Object :=
  {[ "rome/pic.png" := mkS3Object (Encoded "PNG" (mkImage "RGB" 800 600)) "image/png";
     "oslo/pic.png" := mkS3Object (Encoded "PNG" (mkImage "L" 300 900)) "image/png" ]}.

Definition album_world : World :=
  mkWorld sample_environ {[ "uploads" := albums; "thumbs" := ∅ ]} {[ "images" := ∅ ]}
    0 0 [].

Definition after_mixed_batch : World :=
  (lambda_handler sample_uuid sample_clock sample_globals mixed_batch fresh_world).2.

Definition after_rome : World := (run_record "rome/pic.png" album_world).2.

Definition after_oslo : World := (run_record "oslo/pic.png" after_rome).2.

(** A generator that hands out one identifier again and again. *)
Definition stuck_uuid (n : nat) : string := "7d0c".

(** A batch with one key twice. *)
Definition same_key_twice : S3Event :=
  {| Records := record_of_key <$> ["photos/cat.png"; "photos/cat.png"] |}.

(** A batch whose last record is not an image. *)
Definition late_failure : S3Event :=
  {| Records := record_of_key <$> ["photos/cat.png"; "icons/small/dot.png";
                                   "notes/readme.txt"] |}.

Definition after_late_failure : World :=
  (lambda_handler sample_uuid sample_clock sample_globals late_failure fresh_world).2.

(** The deployment after a first invocation under the clock that is set
    back after its first reading: the step back lies before any later
    batch. *)
Definition after_early_reading : World :=
  (lambda_handler sample_uuid stepped_clock sample_globals
     {| Records := [record_of_key "photos/cat.png"] |} fresh_world).2.

Definition after_late_batch : World :=
  (lambda_handler sample_uuid stepped_clock sample_globals two_images
     after_early_reading).2.

Lemma sample_globals_loaded :
  load_module fresh_world = (Ok sample_globals, fresh_world).
Proof. reflexivity. Qed.

Lemma sample_clock_valid (i : nat) : check_fields (sample_clock i) = true.
Proof.
  unfold check_fields, sample_clock. cbn.
  apply andb_true_iff. split; [apply Z.leb_le | apply Z.leb_le]; lia.
Qed.

Lemma sample_clock_monotone (i j : nat) :
  (i <= j)%nat -> dt_le (sample_clock i) (sample_clock j).
Proof.
  intros Hij. unfold dt_le, sample_clock. cbn.
  rewrite andb_true_r. apply orb_true_iff.
  destruct (Z.lt_ge_cases (Z.min (Z.of_nat i) 999999) (Z.min (Z.of_nat j) 999999)).
  - left. apply Z.ltb_lt. assumption.
  - right. apply Z.eqb_eq. lia.
Qed.

(** A pair is its first component and the rest. *)
Lemma pair_of_fst {A B : Type} (p : A * B) (a : A) : p.1 = a -> p = (a, p.2).
Proof. destruct p as [x y]. cbn. intros ->. reflexivity. Qed.

(** The first scenario of the spec: one record, a 1000x500 source. *)
Example scenario_one_record :
  let run := run_batch ["photos/cat.png"] fresh_world in
  run.1 = Ok success_response /\
  thumb run.2 "resized/cat.png"
    = Some (mkS3Object (Encoded "JPEG" (mkImage "RGB" 300 150)) "image/jpeg") /\
  (size <$> tables run.2 !! "images") = Some 1%nat /\
  row_attribute run.2 "0" "original_key" = Some "photos/cat.png" /\
  row_attribute run.2 "0" "resized_key" = Some "resized/cat.png".
Proof. cbv zeta. repeat split; vm_compute; reflexivity. Qed.

(** The second scenario of the spec: the same key twice. *)
Example scenario_same_key_twice :
  let run := run_batch ["photos/cat.png"; "photos/cat.png"] fresh_world in
  run.1 = Ok success_response /\
  image_ids (calls run.2) = ["0"; "1"] /\
  (size <$> tables run.2 !! "images") = Some 2%nat /\
  row_attribute run.2 "0" "original_key" = Some "photos/cat.png" /\
  row_attribute run.2 "1" "original_key" = Some "photos/cat.png" /\
  row_attribute run.2 "0" "resized_key" = Some "resized/cat.png" /\
  row_attribute run.2 "1" "resized_key" = Some "resized/cat.png" /\
  (size <$> buckets run.2 !! "thumbs") = Some 1%nat.
Proof. cbv zeta. repeat split; vm_compute; reflexivity. Qed.

(** A deployment without its metadata table: the upload of the record is
    done and stays, the metadata write raises. *)
Example scenario_missing_table :
  let run := run_batch ["photos/cat.png"; "icons/small/dot.png"] tableless_world in
  run.1 = Raise (ClientError "ResourceNotFoundException" "PutItem") /\
  thumb run.2 "resized/cat.png"
    = Some (mkS3Object (Encoded "JPEG" (mkImage "RGB" 300 150)) "image/jpeg") /\
  thumb run.2 "resized/dot.png" = None /\
  length (calls run.2) = 3%nat.
Proof. cbv zeta. repeat split; vm_compute; reflexivity. Qed.

(** *** The theorems at work on the deployment *)

Lemma resized_raster_fits_box_witness :
  exists out dest',
    buckets (run_record "photos/cat.png" fresh_world).2 !! "thumbs" = Some dest' /\
    dest' !! resized_key_of "photos/cat.png"
      = Some (mkS3Object (Encoded "JPEG" out) "image/jpeg") /\
    thumbnail (mkImage "RGB" 1000 500) (300, 300) = Ok out /\
    Z.max (width out) (height out) <= 300 /\
    1 <= width out /\ 1 <= height out /\
    within_rounding (mkImage "RGB" 1000 500) out 300.
Proof.
  apply (resized_raster_fits_box sample_uuid sample_clock sample_globals
           "uploads" "thumbs" (record_of_key "photos/cat.png") fresh_world
           (run_record "photos/cat.png" fresh_world).2 uploads cat_png
           (mkImage "RGB" 1000 500)).
  - refine (pair_of_fst (run_record "photos/cat.png" fresh_world) _ _). vm_compute. reflexivity.
  - reflexivity.
  - reflexivity.
  - reflexivity.
  - cbn. lia.
  - cbn. lia.
Defined.

Lemma small_images_are_not_resized_witness :
  exists out dest',
    buckets (run_record "icons/small/dot.png" fresh_world).2 !! "thumbs" = Some dest' /\
    dest' !! resized_key_of "icons/small/dot.png"
      = Some (mkS3Object (Encoded "JPEG" out) "image/jpeg") /\
    (64 < 300 -> 48 < 300 -> out = mkImage "RGB" 64 48 /\ width out = 64 /\ height out = 48) /\
    (0 < 64 -> 0 < 48 -> width out <= 64 /\ height out <= 48).
Proof.
  apply (small_images_are_not_resized sample_uuid sample_clock sample_globals
           "uploads" "thumbs" (record_of_key "icons/small/dot.png") fresh_world
           (run_record "icons/small/dot.png" fresh_world).2 uploads dot_png
           (mkImage "RGB" 64 48)).
  - refine (pair_of_fst (run_record "icons/small/dot.png" fresh_world) _ _). vm_compute. reflexivity.
  - reflexivity.
  - reflexivity.
  - reflexivity.
Defined.

Lemma destination_key_is_resized_basename_witness :
  resized_key_of "icons/small/dot.png" = "resized/dot.png" /\
  exists content dest',
    buckets (run_record "icons/small/dot.png" fresh_world).2 !! "thumbs" = Some dest' /\
    dest' !! "resized/dot.png" = Some (mkS3Object content "image/jpeg").
Proof.
  destruct (destination_key_is_resized_basename sample_uuid sample_clock sample_globals
              "uploads" "thumbs" (record_of_key "icons/small/dot.png") fresh_world
              (run_record "icons/small/dot.png" fresh_world).2)
    as (Hkey & _ & content & dest' & _ & Hbucket & Hobject).
  - refine (pair_of_fst (run_record "icons/small/dot.png" fresh_world) _ _). vm_compute. reflexivity.
  - split; [reflexivity|]. exists content, dest'. split; [exact Hbucket | exact Hobject].
Defined.

Lemma failure_aborts_the_batch_witness :
  lambda_handler sample_uuid sample_clock sample_globals mixed_batch fresh_world
  = (Raise UnidentifiedImageError, after_readme) /\
  thumb after_readme "resized/dot.png" = None.
Proof.
  split.
  - apply (failure_aborts_the_batch sample_uuid sample_clock sample_globals mixed_batch
             [record_of_key "photos/cat.png"] [record_of_key "icons/small/dot.png"]
             (record_of_key "notes/readme.txt") "uploads" "thumbs"
             fresh_world after_cat after_readme UnidentifiedImageError).
    + reflexivity.
    + reflexivity.
    + reflexivity.
    + apply (processes_cons _ _ _ _ _ _ _ fresh_world after_cat after_cat).
      * refine (pair_of_fst (run_record "photos/cat.png" fresh_world) _ _). vm_compute. reflexivity.
      * apply processes_nil.
    + refine (pair_of_fst (run_record "notes/readme.txt" after_cat) _ _). vm_compute. reflexivity.
  - vm_compute. reflexivity.
Defined.

Lemma success_payload_is_fixed_witness :
  lambda_handler sample_uuid sample_clock sample_globals two_images fresh_world
  = (Ok (mkResponse 200 "Image resized and metadata stored successfully."),
     after_two_images).
Proof.
  apply (proj2 (success_payload_is_fixed sample_uuid sample_clock sample_globals
                  two_images fresh_world) "uploads" "thumbs" after_two_images).
  - reflexivity.
  - reflexivity.
  - apply (processes_cons _ _ _ _ _ _ _ fresh_world after_cat after_two_images).
    + refine (pair_of_fst (run_record "photos/cat.png" fresh_world) _ _). vm_compute. reflexivity.
    + apply (processes_cons _ _ _ _ _ _ _ after_cat after_two_images after_two_images).
      * refine (pair_of_fst (run_record "icons/small/dot.png" after_cat) _ _). vm_compute. reflexivity.
      * apply processes_nil.
Defined.

Lemma empty_batch_touches_nothing_witness :
  lambda_handler sample_uuid sample_clock sample_globals {| Records := [] |} fresh_world
  = (Ok (mkResponse 200 "Image resized and metadata stored successfully."), fresh_world).
Proof.
  destruct (empty_batch_touches_nothing sample_uuid sample_clock sample_globals
              {| Records := [] |} fresh_world "uploads" "thumbs") as [Hrun _].
  - reflexivity.
  - reflexivity.
  - reflexivity.
  - exact Hrun.
Defined.

Lemma unencodable_mode_fails_the_record_witness :
  PIL.open (Body logo_png) = Ok (mkImage "RGBA" 640 480) /\
  exists w',
    run_record "art/logo.png" fresh_world
    = (Raise (OSError "cannot write mode RGBA as JPEG"), w') /\
    calls w' = calls fresh_world ++ [GetObject "uploads" "art/logo.png"] /\
    buckets w' = buckets fresh_world /\ tables w' = tables fresh_world.
Proof.
  destruct (unencodable_mode_fails_the_record sample_uuid sample_clock sample_globals
              "uploads" "thumbs" (record_of_key "art/logo.png") fresh_world
              uploads logo_png "PNG" (mkImage "RGBA" 640 480))
    as (Hopen & w' & Hrun & Hcalls & Hbuckets & Htables & _).
  - reflexivity.
  - reflexivity.
  - reflexivity.
  - cbn. lia.
  - cbn. lia.
  - reflexivity.
  - split; [exact Hopen|]. exists w'.
    split; [exact Hrun|]. split; [exact Hcalls|]. split; [exact Hbuckets | exact Htables].
Defined.

Lemma sample_uuid_inj : Inj (=) (=) sample_uuid.
Proof. unfold sample_uuid. apply _. Qed.

Lemma fresh_world_rows_issued : rows_issued sample_uuid sample_globals fresh_world.
Proof.
  intros rows id Ht Hrow. cbn in Ht. rewrite lookup_singleton_eq in Ht.
  injection Ht as <-. rewrite lookup_empty in Hrow. destruct Hrow as [? [=]].
Qed.

Lemma one_metadata_record_per_processed_record_witness :
  (exists before after,
     put_items (calls after_late_failure)
     = put_items (calls fresh_world) ++ before
       ++ ("images", item_of_record sample_uuid sample_clock "uploads" "thumbs"
                       "icons/small/dot.png" after_cat) :: after /\
     length before = 1%nat /\ (length after <= 1)%nat) /\
  exists rows3,
    tables after_late_failure !! "images" = Some rows3 /\
    rows3 !! sample_uuid (uuid_drawn after_cat)
    = Some (item_of_record sample_uuid sample_clock "uploads" "thumbs"
              "icons/small/dot.png" after_cat).
Proof.
  destruct (one_metadata_record_per_processed_record sample_uuid sample_clock
              sample_globals late_failure "uploads" "thumbs"
              [record_of_key "photos/cat.png"] [record_of_key "notes/readme.txt"]
              (record_of_key "icons/small/dot.png")
              fresh_world after_cat after_two_images after_late_failure
              (lambda_handler sample_uuid sample_clock sample_globals late_failure
                 fresh_world).1)
    as (_ & (before & after & Hput & Hlen & Hle & _) & _ & Hkeep).
  - reflexivity.
  - reflexivity.
  - reflexivity.
  - apply (processes_cons _ _ _ _ _ _ _ fresh_world after_cat after_cat).
    + refine (pair_of_fst (run_record "photos/cat.png" fresh_world) _ _).
      vm_compute. reflexivity.
    + apply processes_nil.
  - refine (pair_of_fst (run_record "icons/small/dot.png" after_cat) _ _).
    vm_compute. reflexivity.
  - apply surjective_pairing.
  - split.
    + exists before, after. split; [exact Hput|]. split; [exact Hlen | exact Hle].
    + destruct (Hkeep after_late_failure (reaches_here _ _ _ _))
        as (rows3 & item3 & Ht & Hrow & _ & Hsame).
      exists rows3. split; [exact Ht|].
      rewrite (Hsame sample_uuid_inj) in Hrow. exact Hrow.
Defined.

Example scenario_late_failure :
  (lambda_handler sample_uuid sample_clock sample_globals late_failure fresh_world).1
  = Raise UnidentifiedImageError /\
  (size <$> tables after_late_failure !! "images") = Some 2%nat /\
  row_attribute after_late_failure "1" "original_key" = Some "icons/small/dot.png" /\
  row_attribute after_late_failure "1" "upload_time" = Some "2024-05-17T09:30:00.000001".
Proof. repeat split; vm_compute; reflexivity. Qed.

(** C6 without the assumption on the generator: a metadata record can be
    replaced.  The generator hands out the identifier of the first record
    again for the second; both records are processed, the invocation
    returns its payload, two items have been sent, and the table holds one
    row: the row written for the first record now describes the second. *)
Lemma metadata_record_can_be_replaced :
  let first := process_record stuck_uuid sample_clock sample_globals "uploads" "thumbs"
                 (record_of_key "photos/cat.png") fresh_world in
  let run := lambda_handler stuck_uuid sample_clock sample_globals two_images
               fresh_world in
  first.1 = Ok tt /\
  row_attribute first.2 "7d0c" "original_key" = Some "photos/cat.png" /\
  run.1 = Ok success_response /\
  length (put_items (calls run.2)) = 2%nat /\
  (size <$> tables run.2 !! "images") = Some 1%nat /\
  row_attribute run.2 "7d0c" "original_key" = Some "icons/small/dot.png".
Proof. cbv zeta. repeat split; vm_compute; reflexivity. Qed.

Lemma identifiers_are_pairwise_distinct_witness :
  exists fresh,
    image_ids (calls after_two_invocations) = image_ids (calls fresh_world) ++ fresh /\
    NoDup fresh.
Proof.
  destruct (identifiers_are_pairwise_distinct sample_uuid sample_clock sample_globals
              fresh_world after_two_invocations)
    as (Hfresh & _).
  - apply (invoke_all_reaches sample_uuid sample_clock sample_globals two_invocations
             fresh_world after_two_invocations
             (invoke_all sample_uuid sample_clock sample_globals two_invocations
                fresh_world).1).
    apply surjective_pairing.
  - destruct Hfresh as (fresh & Hids & Hnodup & _).
    + intros i j _ _ Heq. apply sample_uuid_inj, Heq.
    + exists fresh. split; [exact Hids | exact Hnodup].
Defined.

(** C7 without the assumption on the generator: two processed records
    can carry one identifier.  The generator hands out the same identifier
    twice; the batch names one key twice, both records are processed and
    the invocation returns its payload; the two items carry the same
    identifier, and the second has taken the place of the first in the
    table instead of standing next to it. *)
Lemma identifiers_can_repeat :
  let run := lambda_handler stuck_uuid sample_clock sample_globals same_key_twice
               fresh_world in
  run.1 = Ok success_response /\
  image_ids (calls run.2) = ["7d0c"; "7d0c"] /\
  ~ NoDup (image_ids (calls run.2)) /\
  (size <$> tables run.2 !! "images") = Some 1%nat /\
  row_attribute run.2 "7d0c" "upload_time" = Some "2024-05-17T09:30:00.000001".
Proof.
  cbv zeta.
  assert (Hids : image_ids
                   (calls (lambda_handler stuck_uuid sample_clock sample_globals
                             same_key_twice fresh_world).2)
                 = ["7d0c"; "7d0c"])
    by (vm_compute; reflexivity).
  split; [vm_compute; reflexivity|]. split; [exact Hids|]. split.
  - rewrite Hids. intros Hnodup. apply NoDup_cons in Hnodup as [Hnotin _].
    apply Hnotin. left.
  - split; vm_compute; reflexivity.
Qed.


(** The clock was set back before the batch, not during it: the upload
    times of the batch do not decrease, though the first one is earlier
    than the upload time of the invocation before. *)
Example scenario_clock_set_back_earlier :
  upload_times (calls after_early_reading) = ["2024-05-17T09:30:01"] /\
  upload_times (calls after_late_batch)
  = ["2024-05-17T09:30:01"; "2024-05-17T09:30:00"; "2024-05-17T09:30:00"].
Proof. split; vm_compute; reflexivity. Qed.


Example scenario_upload_times :
  upload_times (calls after_two_invocations)
  = ["2024-05-17T09:30:00"; "2024-05-17T09:30:00.000001"; "2024-05-17T09:30:00.000002"].
Proof. vm_compute. reflexivity. Qed.

(** *** Further properties at work on the deployment *)

Lemma two_images_processed :
  processes_all sample_uuid sample_clock sample_globals "uploads" "thumbs"
    (Records two_images) fresh_world after_two_images.
Proof.
  apply (processes_cons _ _ _ _ _ _ _ fresh_world after_cat after_two_images).
  - refine (pair_of_fst (run_record "photos/cat.png" fresh_world) _ _).
    vm_compute. reflexivity.
  - apply (processes_cons _ _ _ _ _ _ _ after_cat after_two_images after_two_images).
    + refine (pair_of_fst (run_record "icons/small/dot.png" after_cat) _ _).
      vm_compute. reflexivity.
    + apply processes_nil.
Qed.

Lemma missing_variable_raises_before_any_request_witness :
  lambda_handler sample_uuid sample_clock sample_globals two_images unconfigured_world
  = (Raise (KeyError "SOURCE_BUCKET"), unconfigured_world).
Proof.
  apply (proj1 (missing_variable_raises_before_any_request sample_uuid sample_clock
                  sample_globals two_images unconfigured_world)).
  reflexivity.
Defined.

Lemma handler_returns_or_raises_at_first_failure_witness :
  exists e pre r post w1,
    @Raise Response UnidentifiedImageError = Raise e /\
    Records mixed_batch = pre ++ r :: post /\
    processes_all sample_uuid sample_clock sample_globals "uploads" "thumbs"
      pre fresh_world w1 /\
    process_record sample_uuid sample_clock sample_globals "uploads" "thumbs" r w1
    = (Raise e, after_mixed_batch).
Proof.
  destruct (handler_returns_or_raises_at_first_failure sample_uuid sample_clock
              sample_globals mixed_batch "uploads" "thumbs" fresh_world
              after_mixed_batch (Raise UnidentifiedImageError))
    as [[Hres _]|Hfail].
  - reflexivity.
  - reflexivity.
  - refine (pair_of_fst
              (lambda_handler sample_uuid sample_clock sample_globals mixed_batch
                 fresh_world) _ _).
    vm_compute. reflexivity.
  - discriminate Hres.
  - exact Hfail.
Defined.

Lemma batch_is_processed_part_after_part_witness :
  lambda_handler sample_uuid sample_clock sample_globals
    {| Records := [record_of_key "photos/cat.png"] ++ [record_of_key "icons/small/dot.png"] |}
    fresh_world
  = match lambda_handler sample_uuid sample_clock sample_globals
            {| Records := [record_of_key "photos/cat.png"] |} fresh_world with
    | (Ok _, w1) =>
        lambda_handler sample_uuid sample_clock sample_globals
          {| Records := [record_of_key "icons/small/dot.png"] |} w1
    | (Raise e, w1) => (Raise e, w1)
    end.
Proof.
  apply (batch_is_processed_part_after_part sample_uuid sample_clock sample_globals
           [record_of_key "photos/cat.png"] [record_of_key "icons/small/dot.png"]
           "uploads" "thumbs" fresh_world).
  - reflexivity.
  - reflexivity.
Defined.

Lemma handler_writes_only_destination_keys_witness :
  object_at after_mixed_batch "uploads" "photos/cat.png"
  = object_at fresh_world "uploads" "photos/cat.png" /\
  environ after_mixed_batch = environ fresh_world /\
  dom (buckets after_mixed_batch) = dom (buckets fresh_world).
Proof.
  destruct (handler_writes_only_destination_keys sample_uuid sample_clock
              sample_globals mixed_batch "uploads" "thumbs" fresh_world
              after_mixed_batch
              (lambda_handler sample_uuid sample_clock sample_globals mixed_batch
                 fresh_world).1)
    as (Hobjects & _ & Henv & Hdom & _).
  - reflexivity.
  - reflexivity.
  - apply surjective_pairing.
  - split; [|split; [exact Henv | exact Hdom]].
    apply Hobjects. left. discriminate.
Defined.

Lemma failed_record_writes_no_row_witness :
  tables (run_record "photos/cat.png" tableless_world).2 = tables tableless_world /\
  exists sent,
    calls (run_record "photos/cat.png" tableless_world).2
    = calls tableless_world ++ sent.
Proof.
  destruct (failed_record_writes_no_row sample_uuid sample_clock sample_globals
              "uploads" "thumbs" (record_of_key "photos/cat.png")
              (ClientError "ResourceNotFoundException" "PutItem")
              tableless_world (run_record "photos/cat.png" tableless_world).2)
    as (Htables & sent & Hcalls & _).
  - refine (pair_of_fst (run_record "photos/cat.png" tableless_world) _ _).
    vm_compute. reflexivity.
  - split; [exact Htables|]. exists sent. exact Hcalls.
Defined.

Lemma after_two_invocations_reached :
  reaches sample_uuid sample_clock sample_globals fresh_world after_two_invocations.
Proof.
  apply (invoke_all_reaches sample_uuid sample_clock sample_globals two_invocations
           fresh_world after_two_invocations
           (invoke_all sample_uuid sample_clock sample_globals two_invocations
              fresh_world).1).
  apply surjective_pairing.
Qed.

Lemma pipeline_never_deletes_objects_witness :
  object_at after_two_invocations "uploads" "art/logo.png"
  = object_at fresh_world "uploads" "art/logo.png" /\
  dom (tables after_two_invocations) = dom (tables fresh_world).
Proof.
  destruct (pipeline_never_deletes_objects sample_uuid sample_clock sample_globals
              fresh_world after_two_invocations after_two_invocations_reached)
    as (_ & Hsame & _ & Hdom).
  split; [|exact Hdom]. apply Hsame. reflexivity.
Defined.

Lemma destination_keys_are_flat_witness :
  segments (resized_key_of "icons/small/dot.png") = ["resized"; "dot.png"] /\
  resized_key_of "photos/" = "resized/" /\
  resized_key_of "resized/cat.png" = "resized/cat.png".
Proof.
  split; [|split].
  - exact (proj1 (destination_keys_are_flat "icons/small/dot.png")).
  - destruct (destination_keys_are_flat "photos/") as (_ & _ & _ & Hbare & _).
    apply (Hbare "photos"). reflexivity.
  - destruct (destination_keys_are_flat "resized/cat.png") as (_ & _ & _ & _ & Hfix).
    apply Hfix. exists "cat.png". split; reflexivity.
Defined.

Lemma same_name_sources_share_one_destination_witness :
  exists w1 out2,
    run_record "rome/pic.png" album_world = (Ok tt, w1) /\
    fetch_and_shrink "uploads" "oslo/pic.png" w1 = Ok out2 /\
    buckets after_oslo !! "thumbs"
    = Some (<[resized_key_of "oslo/pic.png"
              := mkS3Object (Encoded "JPEG" out2) "image/jpeg"]> ∅).
Proof.
  apply (same_name_sources_share_one_destination sample_uuid sample_clock
           sample_globals "uploads" "thumbs" (record_of_key "rome/pic.png")
           (record_of_key "oslo/pic.png") album_world after_oslo ∅).
  - reflexivity.
  - reflexivity.
  - apply (processes_cons _ _ _ _ _ _ _ album_world after_rome after_oslo).
    + refine (pair_of_fst (run_record "rome/pic.png" album_world) _ _).
      vm_compute. reflexivity.
    + apply (processes_cons _ _ _ _ _ _ _ after_rome after_oslo after_oslo).
      * refine (pair_of_fst (run_record "oslo/pic.png" after_rome) _ _).
        vm_compute. reflexivity.
      * apply processes_nil.
Defined.

Example scenario_same_name :
  thumb after_oslo "resized/pic.png"
  = Some (mkS3Object (Encoded "JPEG" (mkImage "L" 100 300)) "image/jpeg") /\
  (size <$> buckets after_oslo !! "thumbs") = Some 1%nat /\
  (size <$> tables after_oslo !! "images") = Some 2%nat.
Proof. repeat split; vm_compute; reflexivity. Qed.

Lemma batch_requests_follow_the_records_witness :
  uuid_drawn after_two_images = 2%nat /\
  clock_read after_two_images = 2%nat /\
  exists sent,
    calls after_two_images = calls fresh_world ++ sent /\
    length sent = 6%nat /\
    downloads sent = [("uploads", "photos/cat.png"); ("uploads", "icons/small/dot.png")].
Proof.
  destruct (batch_requests_follow_the_records sample_uuid sample_clock sample_globals
              "uploads" "thumbs" (Records two_images) fresh_world after_two_images
              two_images_processed)
    as (Hu & Hc & sent & Hcalls & Hlen & Hd & _).
  split; [exact Hu|]. split; [exact Hc|].
  exists sent. split; [exact Hcalls|]. split; [exact Hlen | exact Hd].
Defined.

Lemma table_gains_one_row_per_record_witness :
  exists rows',
    tables after_two_images !! "images" = Some rows' /\
    size rows' = 2%nat.
Proof.
  destruct (table_gains_one_row_per_record sample_uuid sample_clock sample_globals
              "uploads" "thumbs" (Records two_images) fresh_world after_two_images ∅
              sample_uuid_inj fresh_world_rows_issued eq_refl two_images_processed)
    as (rows' & Ht & Hsize & _).
  exists rows'. split; [exact Ht | exact Hsize].
Defined.

Lemma isoformat_keeps_the_instant_witness :
  sample_clock 1 = mkDatetime 2024 5 17 9 30 0 1.
Proof.
  apply isoformat_keeps_the_instant.
  - apply sample_clock_valid.
  - reflexivity.
  - reflexivity.
Defined.

Lemma unreadable_source_fails_before_any_write_witness :
  exists w',
    run_record "notes/readme.txt" fresh_world = (Raise UnidentifiedImageError, w') /\
    calls w' = calls fresh_world ++ [GetObject "uploads" "notes/readme.txt"] /\
    buckets w' = buckets fresh_world /\ tables w' = tables fresh_world.
Proof.
  destruct (unreadable_source_fails_before_any_write sample_uuid sample_clock
              sample_globals "uploads" "thumbs" (record_of_key "notes/readme.txt")
              fresh_world)
    as (_ & _ & Hundecodable).
  apply (Hundecodable uploads (mkS3Object (Unrecognised "plain text") "text/plain")
           "plain text").
  - reflexivity.
  - reflexivity.
  - reflexivity.
Defined.

Example scenario_missing_key :
  (run_record "photos/dog.png" fresh_world).1
  = Raise (ClientError "NoSuchKey" "GetObject").
Proof. vm_compute. reflexivity. Qed.

Lemma rows_never_dangle_witness :
  exists rows2 item im,
    tables after_two_images !! "images" = Some rows2 /\
    rows2 !! sample_uuid 0 = Some item /\
    item !! "dest_bucket" = Some "thumbs" /\
    item !! "resized_key" = Some (resized_key_of "photos/cat.png") /\
    object_at after_two_images "thumbs" (resized_key_of "photos/cat.png")
    = Some (mkS3Object (Encoded "JPEG" im) "image/jpeg").
Proof.
  apply (rows_never_dangle sample_uuid sample_clock sample_globals "uploads" "thumbs"
           (record_of_key "photos/cat.png") fresh_world after_cat after_two_images).
  - exact sample_uuid_inj.
  - refine (pair_of_fst (run_record "photos/cat.png" fresh_world) _ _).
    vm_compute. reflexivity.
  - apply (reaches_step sample_uuid sample_clock sample_globals "uploads" "thumbs"
             (record_of_key "icons/small/dot.png") (Ok tt)
             after_cat after_two_images after_two_images).
    + refine (pair_of_fst (run_record "icons/small/dot.png" after_cat) _ _).
      vm_compute. reflexivity.
    + apply reaches_here.
Defined.

End Deployment.
